(** * Watch-party session server: the session store and its handlers

    A shallow embedding of the server script (the legacy HTTP endpoints, the
    websocket handlers and the hourly vacuum) and the properties of the
    session synchronisation engine that hold, or fail, on it.

    Conventions of the embedding.
    - [sessions] and [users] are the two global objects used as maps; they
      are finite maps from strings.  Keys are never names inherited from
      [Object.prototype]: ids come from [makeId] (16 hex digits) or are
      guarded by [hasOwnProperty].
    - A handler runs to completion and either returns or throws; what it
      wrote to the stores and what it sent before a throw stays.
    - [new Date()] reads the server clock, which is an argument [now] of
      the handler; [makeId()] is an argument too.
    - The acknowledgement callback [fn] is taken to be a function; calling
      it is recorded as an [Ack] effect.  What [console.log] prints is not
      kept; a [String(...)] in its argument is evaluated, and can throw.
    - A string is a sequence of code units, [length] their number. *)

From Stdlib Require Import ZArith String List Bool Lia.
From stdpp Require Import base option list strings gmap fin_maps.
From Stdlib Require Import Ascii.

Open Scope string_scope.
Open Scope Z_scope.

(** ** JavaScript values *)

Module Js.

(** A double: an integer value, or one of the numbers every validation
    below refuses.  Of a finite non-integer only the sign is kept.  [Int z]
    stands for the double of value [z]; every integer is taken in, so the
    handlers are given more inputs than the doubles there are, and the
    concrete inputs used below are all doubles. *)
Inductive number :=
| Int (z : Z)
| NonInt (negative : bool)
| NaN
| Infinity (negative : bool).

(** The values a client can send: what JSON holds, and [undefined] for an
    argument or a property that is not there. *)
#[warnings="-register-all"] Inductive value :=
| Undefined
| Null
| Boolean (b : bool)
| Number (n : number)
| Str (s : string)
| Object (fields : list (string * value))
| Array (elements : list value).

Inductive type := TUndefined | TObject | TBoolean | TNumber | TString.

Definition typeof (v : value) : type :=
  match v with
  | Undefined => TUndefined
  | Null => TObject
  | Boolean _ => TBoolean
  | Number _ => TNumber
  | Str _ => TString
  | Object _ => TObject
  | Array _ => TObject
  end.

Definition hasType (t : type) (v : value) : bool :=
  match t, typeof v with
  | TUndefined, TUndefined | TObject, TObject | TBoolean, TBoolean
  | TNumber, TNumber | TString, TString => true
  | _, _ => false
  end.

Fixpoint assoc (k : string) (fs : list (string * value)) : value :=
  match fs with
  | [] => Undefined
  | (k', v) :: fs' => if String.eqb k k' then v else assoc k fs'
  end.

(** The properties that can be read from [v].  Reading any property of
    [undefined] or [null] throws a TypeError ([None]); a primitive or an
    array has none of the properties the handlers read. *)
Definition fields (v : value) : option (list (string * value)) :=
  match v with
  | Undefined | Null => None
  | Object fs => Some fs
  | Boolean _ | Number _ | Str _ | Array _ => Some []
  end.

(** [o.hasOwnProperty(k)] for an object of fields [fs]. *)
Definition hasOwn (k : string) (fs : list (string * value)) : bool :=
  existsb (λ kv, String.eqb k kv.1) fs.

(** Whether [String(v)] throws a TypeError.  No value of the model is a
    function, so an object with a [toString] property of its own has no
    callable [toString], and its [valueOf], its own or the inherited one,
    gives no primitive; without one the inherited [toString] answers.  An
    array joins the strings of its elements, [null] and [undefined] as
    empty strings. *)
Fixpoint stringThrows (v : value) : bool :=
  match v with
  | Object fs => hasOwn "toString" fs
  | Array vs => existsb stringThrows vs
  | Undefined | Null | Boolean _ | Number _ | Str _ => false
  end.

(** The number behind a value whose [typeof] is 'number'. *)
Definition num (v : value) : number :=
  match v with
  | Number n => n
  | _ => NaN
  end.

(** [x % 1] *)
Definition rem1 (n : number) : number :=
  match n with
  | Int _ => Int 0
  | NonInt s => NonInt s
  | NaN => NaN
  | Infinity _ => NaN
  end.

(** [x !== 0] *)
Definition ne0 (n : number) : bool :=
  match n with
  | Int 0 => false
  | _ => true
  end.

(** [x < 0] *)
Definition lt0 (n : number) : bool :=
  match n with
  | Int z => z <? 0
  | NonInt s => s
  | NaN => false
  | Infinity s => s
  end.

(** A [Date] object: a time value in milliseconds, or Invalid Date. *)
Inductive Date :=
| DateAt (ms : Z)
| InvalidDate.

(** The largest time value of a Date, 8.64e15 ms. *)
Definition maxTime : Z := 8640000000000000.

(** TimeClip *)
Definition timeClip (n : number) : Date :=
  match n with
  | Int z => if Z.abs z <=? maxTime then DateAt z else InvalidDate
  | _ => InvalidDate
  end.

(** [new Date(n)] for a number [n]. *)
Definition newDate (n : number) : Date := timeClip n.

(** [d.getTime()] *)
Definition getTime (d : Date) : number :=
  match d with
  | DateAt ms => Int ms
  | InvalidDate => NaN
  end.

(** [a + k] for an integer constant [k]; exact on time values, which stay
    below 2^53. *)
Definition plus (a : number) (k : Z) : number :=
  match a with
  | Int z => Int (z + k)
  | other => other
  end.

(** [a < b] on dates (both converted to numbers). *)
Definition dateLt (a b : Date) : bool :=
  match a, b with
  | DateAt x, DateAt y => x <? y
  | _, _ => false
  end.

End Js.

(** ** State *)

(** The values of [sessions]. *)
Record Session := mkSession {
  session_id : string;
  lastActivity : Js.Date;
  lastKnownTime : Js.number;
  lastKnownTimeUpdatedAt : Js.Date;
  state : string;
  userIds : list string;
  videoId : Js.number
}.

(** The values of [users]; the socket of a user is addressed by the user's
    id in the effects below. *)
Record User := mkUser {
  user_id : string;
  sessionId : option string
}.

Record Store := mkStore {
  sessions : gmap string Session;
  users : gmap string User
}.

Definition emptyStore : Store := mkStore ∅ ∅.

(** ** What a handler sends *)

Inductive Message :=
| MError (errorMessage : string)
| MState (lastKnownTime lastKnownTimeUpdatedAt : Js.number) (state : string)
| MCreated (lastKnownTime lastKnownTimeUpdatedAt : Js.number)
    (sessionId : string) (state : string)
| MJoined (videoId lastKnownTime lastKnownTimeUpdatedAt : Js.number)
    (state : string)
| MNull
| MNothing
| MTime (ms : Js.number)
| MUserId (userId : string).

Inductive Body :=
| Text (s : string)
| Json (s : Session).

Inductive Effect :=
| Ack (m : Message)
| Emit (to : string) (event : string) (m : Message)
| Http (status : Z) (body : Body).

Inductive Outcome :=
| Returned (st : Store) (out : list Effect)
| Threw (st : Store) (out : list Effect).

Definition finalStore (o : Outcome) : Store :=
  match o with
  | Returned st _ | Threw st _ => st
  end.

Definition effects (o : Outcome) : list Effect :=
  match o with
  | Returned _ out | Threw _ out => out
  end.

Definition returned (o : Outcome) : bool :=
  match o with
  | Returned _ _ => true
  | Threw _ _ => false
  end.

(** [console.log(... + String(v) + ...)], the log line of a rejection,
    after [out] was sent: evaluating [String(v)] can throw; the line writes
    nothing to the stores and sends nothing. *)
Definition logged (v : Js.value) (st : Store) (out : list Effect) : Outcome :=
  if Js.stringThrows v then Threw st out else Returned st out.

(** A time value: what a [Date] can hold, and what the clock returns. *)
Definition timeValue (t : Z) : Prop := Z.abs t ≤ Js.maxTime.

(** ** Validation *)

(** [typeof x !== 'number' || x % 1 !== 0 || x < 0] *)
Definition notNonNegInt (x : Js.value) : bool :=
  negb (Js.hasType Js.TNumber x) || Js.ne0 (Js.rem1 (Js.num x)) || Js.lt0 (Js.num x).

(** [typeof x !== 'number' || x % 1 !== 0] *)
Definition notInt (x : Js.value) : bool :=
  negb (Js.hasType Js.TNumber x) || Js.ne0 (Js.rem1 (Js.num x)).

(** [typeof x !== 'string' || (x !== 'playing' && x !== 'paused')];
    [Some] carries the string when the test is false. *)
Definition playState (x : Js.value) : option string :=
  match x with
  | Js.Str s =>
      if negb (String.eqb s "playing") && negb (String.eqb s "paused")
      then None else Some s
  | _ => None
  end.

(** [lodash.pull(array, value)] *)
Definition pull (array : list string) (value : string) : list string :=
  filter (λ x, x ≠ value) array.

(** ** Legacy API *)

(** [app.post('/sessions/create')] *)
Definition httpCreate (body : Js.value) (newId : string) (now : Z)
    (st : Store) : Outcome :=
  match Js.fields body with
  | None => Threw st []
  | Some req =>
    let videoId := Js.assoc "videoId" req in
    if Js.hasType Js.TUndefined videoId then
      Returned st [Http 500 (Text "Missing parameter: videoId")]
    else if notInt videoId then
      Returned st [Http 500 (Text "Invalid parameter: videoId")]
    else
      let session :=
        mkSession newId (Js.DateAt now) (Js.Int 0) (Js.DateAt now) "paused"
          [] (Js.num videoId) in
      Returned (mkStore (<[newId := session]> (sessions st)) (users st))
        [Http 200 (Json session)]
  end.

(** [app.post('/sessions/:id/update')] *)
Definition httpUpdate (id : string) (body : Js.value) (now : Z)
    (st : Store) : Outcome :=
  match sessions st !! id with
  | None => Returned st [Http 404 (Text ("Unknown session id: " +:+ id))]
  | Some session =>
    match Js.fields body with
    | None => Threw st []
    | Some req =>
      let time := Js.assoc "lastKnownTime" req in
      let reqState := Js.assoc "state" req in
      if Js.hasType Js.TUndefined time then
        Returned st [Http 500 (Text "Missing parameter: lastKnownTime")]
      else if notInt time then
        Returned st [Http 500 (Text "Invalid parameter: lastKnownTime")]
      else if Js.lt0 (Js.num time) then
        Returned st [Http 500 (Text "Invalid parameter: lastKnownTime")]
      else if Js.hasType Js.TUndefined reqState then
        Returned st [Http 500 (Text "Missing parameter: state")]
      else
        match playState reqState with
        | None => Returned st [Http 500 (Text "Invalid parameter: state")]
        | Some newState =>
          let session :=
            mkSession (session_id session) (Js.DateAt now) (Js.num time)
              (Js.DateAt now) newState (userIds session) (videoId session) in
          Returned (mkStore (<[id := session]> (sessions st)) (users st))
            [Http 200 (Json session)]
        end
    end
  end.

(** [app.get('/sessions/:id')] *)
Definition httpGet (id : string) (now : Z) (st : Store) : Outcome :=
  match sessions st !! id with
  | None => Returned st [Http 404 (Text ("Unknown session id: " +:+ id))]
  | Some session =>
    let session :=
      mkSession (session_id session) (Js.DateAt now) (lastKnownTime session)
        (lastKnownTimeUpdatedAt session) (state session) (userIds session)
        (videoId session) in
    Returned (mkStore (<[id := session]> (sessions st)) (users st))
      [Http 200 (Json session)]
  end.

(** ** Websockets API *)

Definition setSessionId (sid : option string) (user : User) : User :=
  mkUser (user_id user) sid.

Definition setUserIds (ids : list string) (s : Session) : Session :=
  mkSession (session_id s) (lastActivity s) (lastKnownTime s)
    (lastKnownTimeUpdatedAt s) (state s) ids (videoId s).

(** [io.on('connection')]; [userId] is the result of [makeId()]. *)
Definition connection (userId : string) (st : Store) : Outcome :=
  Returned (mkStore (sessions st) (<[userId := mkUser userId None]> (users st)))
    [Emit userId "userId" (MUserId userId)].

(** [socket.on('reboot')] *)
Definition reboot (userId : string) (data : Js.value) (now : Z)
    (st : Store) : Outcome :=
  match Js.fields data with
  | None => Threw st []
  | Some d =>
    match Js.assoc "sessionId" d with
    | Js.Str sid =>
      if negb (String.length sid =? 16)%nat then
        logged (Js.Str sid) st [Ack (MError "Invalid session ID.")]
      else if notNonNegInt (Js.assoc "lastKnownTime" d) then
        logged (Js.assoc "lastKnownTime" d) st
          [Ack (MError "Invalid lastKnownTime.")]
      else if notNonNegInt (Js.assoc "lastKnownTimeUpdatedAt" d) then
        logged (Js.assoc "lastKnownTimeUpdatedAt" d) st
          [Ack (MError "Invalid lastKnownTimeUpdatedAt.")]
      else
        match playState (Js.assoc "state" d) with
        | None =>
          logged (Js.assoc "state" d) st [Ack (MError "Invalid state.")]
        | Some newState =>
          if notNonNegInt (Js.assoc "videoId" d) then
            logged (Js.assoc "videoId" d) st
              [Ack (MError "Invalid video ID.")]
          else
            let session :=
              match sessions st !! sid with
              | Some s => setUserIds (userIds s ++ [userId]) s
              | None =>
                  mkSession sid (Js.DateAt now)
                    (Js.num (Js.assoc "lastKnownTime" d))
                    (Js.newDate (Js.num (Js.assoc "lastKnownTimeUpdatedAt" d)))
                    newState [userId] (Js.num (Js.assoc "videoId" d))
              end in
            let sessions' := <[sid := session]> (sessions st) in
            match users st !! userId with
            | None => Threw (mkStore sessions' (users st)) []
            | Some user =>
              Returned
                (mkStore sessions'
                   (<[userId := setSessionId (Some sid) user]> (users st)))
                [Ack (MState (lastKnownTime session)
                        (Js.getTime (lastKnownTimeUpdatedAt session))
                        (state session))]
            end
        end
    | other => logged other st [Ack (MError "Invalid session ID.")]
    end
  end.

(** [socket.on('createSession')]; [newId] is the result of [makeId()]. *)
Definition createSession (userId : string) (videoId : Js.value)
    (newId : string) (now : Z) (st : Store) : Outcome :=
  if notNonNegInt videoId then
    logged videoId st [Ack (MError "Invalid video ID.")]
  else
    match users st !! userId with
    | None => Threw st []
    | Some user =>
      let session :=
        mkSession newId (Js.DateAt now) (Js.Int 0) (Js.DateAt now) "paused"
          [userId] (Js.num videoId) in
      Returned
        (mkStore (<[newId := session]> (sessions st))
           (<[userId := setSessionId (Some newId) user]> (users st)))
        [Ack (MCreated (lastKnownTime session)
                (Js.getTime (lastKnownTimeUpdatedAt session))
                newId (state session))]
    end.

(** [socket.on('joinSession')] *)
Definition joinSession (userId : string) (requested : Js.value)
    (st : Store) : Outcome :=
  match requested with
  | Js.Str sid =>
    match sessions st !! sid with
    | None => logged requested st [Ack (MError "Invalid session ID.")]
    | Some s =>
      match users st !! userId with
      | None => Threw st []
      | Some user =>
        match sessionId user with
        | Some _ => Returned st [Ack (MError "Already in a session.")]
        | None =>
          Returned
            (mkStore
               (<[sid := setUserIds (userIds s ++ [userId]) s]> (sessions st))
               (<[userId := setSessionId (Some sid) user]> (users st)))
            [Ack (MJoined (videoId s) (lastKnownTime s)
                    (Js.getTime (lastKnownTimeUpdatedAt s)) (state s))]
        end
      end
    end
  | _ => logged requested st [Ack (MError "Invalid session ID.")]
  end.

(** The statements [leaveSession] and [disconnect] share: pull the user
    from the session's [userIds], clear the user's [sessionId], delete the
    session when no user is left. *)
Definition depart (userId : string) (user : User) (sid : string)
    (s : Session) (st : Store) : Store :=
  let s' := setUserIds (pull (userIds s) userId) s in
  let sessions' := <[sid := s']> (sessions st) in
  let users' := <[userId := setSessionId None user]> (users st) in
  if (length (userIds s') =? 0)%nat
  then mkStore (delete sid sessions') users'
  else mkStore sessions' users'.

(** [socket.on('leaveSession')] *)
Definition leaveSession (userId : string) (st : Store) : Outcome :=
  match users st !! userId with
  | None => Threw st []
  | Some user =>
    match sessionId user with
    | None => Returned st [Ack (MError "Not in a session.")]
    | Some sid =>
      match sessions st !! sid with
      | None => Threw st []
      | Some s => Returned (depart userId user sid s st) [Ack MNull]
      end
    end
  end.

(** [lodash.forEach(userIds, ...)] of [updateSession]: the updates sent, and
    whether the loop ran to its end ([users[id]] was defined each time). *)
Fixpoint sendUpdates (registry : gmap string User) (userId : string)
    (m : Message) (ids : list string) : list Effect * bool :=
  match ids with
  | [] => ([], true)
  | id :: rest =>
    if decide (id ≠ userId) then
      match registry !! id with
      | None => ([], false)
      | Some _ =>
        let (out, ok) := sendUpdates registry userId m rest in
        (Emit id "update" m :: out, ok)
      end
    else sendUpdates registry userId m rest
  end.

(** [socket.on('updateSession')] *)
Definition updateSession (userId : string) (data : Js.value) (now : Z)
    (st : Store) : Outcome :=
  match users st !! userId with
  | None => Threw st []
  | Some user =>
    match sessionId user with
    | None => Returned st [Ack (MError "Not in a session.")]
    | Some sid =>
      match Js.fields data with
      | None => Threw st []
      | Some d =>
        if notNonNegInt (Js.assoc "lastKnownTime" d) then
          logged (Js.assoc "lastKnownTime" d) st
            [Ack (MError "Invalid lastKnownTime.")]
        else if notNonNegInt (Js.assoc "lastKnownTimeUpdatedAt" d) then
          logged (Js.assoc "lastKnownTimeUpdatedAt" d) st
            [Ack (MError "Invalid lastKnownTimeUpdatedAt.")]
        else
          match playState (Js.assoc "state" d) with
          | None =>
            logged (Js.assoc "state" d) st [Ack (MError "Invalid state.")]
          | Some newState =>
            match sessions st !! sid with
            | None => Threw st []
            | Some s =>
              let s' :=
                mkSession (session_id s) (Js.DateAt now)
                  (Js.num (Js.assoc "lastKnownTime" d))
                  (Js.newDate (Js.num (Js.assoc "lastKnownTimeUpdatedAt" d)))
                  newState (userIds s) (videoId s) in
              let st' := mkStore (<[sid := s']> (sessions st)) (users st) in
              let m :=
                MState (lastKnownTime s')
                  (Js.getTime (lastKnownTimeUpdatedAt s')) (state s') in
              let (out, ok) := sendUpdates (users st') userId m (userIds s') in
              if ok then Returned st' (Ack MNothing :: out)
              else Threw st' (Ack MNothing :: out)
            end
          end
      end
    end
  end.

(** [socket.on('ping')] *)
Definition ping (userId : string) (now : Z) (st : Store) : Outcome :=
  Returned st [Ack (MTime (Js.getTime (Js.DateAt now)))].

(** [socket.on('disconnect')] *)
Definition disconnect (userId : string) (st : Store) : Outcome :=
  match users st !! userId with
  | None => Threw st []
  | Some user =>
    match sessionId user with
    | None => Returned (mkStore (sessions st) (delete userId (users st))) []
    | Some sid =>
      match sessions st !! sid with
      | None => Threw st []
      | Some s =>
        let st' := depart userId user sid s st in
        Returned (mkStore (sessions st') (delete userId (users st'))) []
      end
    end
  end.

(** ** Vacuum *)

(** The test of the first loop of the vacuum, at clock reading [now]. *)
Definition old (now : Z) (s : Session) : bool :=
  let expiresAt :=
    Js.timeClip (Js.plus (Js.getTime (lastActivity s)) (1000 * 60 * 60)) in
  Js.dateLt expiresAt (Js.DateAt now) && (length (userIds s) =? 0)%nat.

(** First loop: the ids pushed to [oldSessionIds]. *)
Definition oldSessionIds (now : Z) (st : Store) : list string :=
  (filter (λ kv, old now kv.2 = true) (map_to_list (sessions st))).*1.

(** Second loop: [delete sessions[oldSessionIds[i]]]. *)
Definition deleteAll (ids : list string) (m : gmap string Session) :
    gmap string Session :=
  foldl (λ acc id, delete id acc) m ids.

Definition vacuum (now : Z) (st : Store) : Outcome :=
  Returned (mkStore (deleteAll (oldSessionIds now st) (sessions st)) (users st))
    [].

(** ** The event loop *)

Inductive Event :=
| HttpCreate (body : Js.value) (newId : string) (now : Z)
| HttpUpdate (id : string) (body : Js.value) (now : Z)
| HttpGet (id : string) (now : Z)
| Connection (newId : string)
| Reboot (userId : string) (data : Js.value) (now : Z)
| CreateSession (userId : string) (videoId : Js.value) (newId : string)
    (now : Z)
| JoinSession (userId : string) (sessionId : Js.value)
| LeaveSession (userId : string)
| UpdateSession (userId : string) (data : Js.value) (now : Z)
| Ping (userId : string) (now : Z)
| Disconnect (userId : string)
| Vacuum (now : Z).

Definition handle (e : Event) (st : Store) : Outcome :=
  match e with
  | HttpCreate body newId now => httpCreate body newId now st
  | HttpUpdate id body now => httpUpdate id body now st
  | HttpGet id now => httpGet id now st
  | Connection newId => connection newId st
  | Reboot u data now => reboot u data now st
  | CreateSession u videoId newId now => createSession u videoId newId now st
  | JoinSession u sid => joinSession u sid st
  | LeaveSession u => leaveSession u st
  | UpdateSession u data now => updateSession u data now st
  | Ping u now => ping u now st
  | Disconnect u => disconnect u st
  | Vacuum now => vacuum now st
  end.

(** The clock reading an event comes with, if any. *)
Definition clock (e : Event) : option Z :=
  match e with
  | HttpCreate _ _ now | HttpUpdate _ _ now | HttpGet _ now | Reboot _ _ now
  | CreateSession _ _ _ now | UpdateSession _ _ now | Ping _ now
  | Vacuum now => Some now
  | Connection _ | JoinSession _ _ | LeaveSession _ | Disconnect _ => None
  end.

(** What the environment guarantees of an event: the clock returns a time
    value, [makeId()] returns an id not in use, and socket events come from
    a connection that is still open, that is, from a registered user. *)
Definition admissible (st : Store) (e : Event) : Prop :=
  match clock e with
  | Some now => timeValue now
  | None => True
  end ∧
  match e with
  | HttpCreate _ newId _ => sessions st !! newId = None
  | Connection newId => users st !! newId = None
  | CreateSession u _ newId _ =>
      is_Some (users st !! u) ∧ sessions st !! newId = None
  | Reboot u _ _ | JoinSession u _ | LeaveSession u | UpdateSession u _ _
  | Ping u _ | Disconnect u => is_Some (users st !! u)
  | HttpUpdate _ _ _ | HttpGet _ _ | Vacuum _ => True
  end.

(** The stores the server can be in: the process runs from the empty stores
    and stops at the first uncaught exception. *)
Inductive reachable : Store → Prop :=
| reachable_start : reachable emptyStore
| reachable_step st e st' out :
    reachable st → admissible st e → handle e st = Returned st' out →
    reachable st'.

(** Running a list of events, stopping at the first throw. *)
Fixpoint run (es : list Event) (st : Store) : Outcome :=
  match es with
  | [] => Returned st []
  | e :: es' =>
    match handle e st with
    | Returned st' _ => run es' st'
    | Threw st' out => Threw st' out
    end
  end.

(** ** Predicates of the properties *)

(** A user's [sessionId] names a session of the store that lists the user. *)
Definition linked (st : Store) : Prop :=
  ∀ u user sid, users st !! u = Some user → sessionId user = Some sid →
    ∃ s, sessions st !! sid = Some s ∧ u ∈ userIds s.

(** Membership read in both directions: a session lists a user id exactly
    when that user is registered with this session as its [sessionId]. *)
Definition membershipConsistent (st : Store) : Prop :=
  ∀ u sid s, sessions st !! sid = Some s →
    (u ∈ userIds s ↔
     ∃ user, users st !! u = Some user ∧ sessionId user = Some sid).

(** Every stored [videoId] is a non-negative integer. *)
Definition videoIdsNonNegative (st : Store) : Prop :=
  ∀ sid s, sessions st !! sid = Some s →
    ∃ z, videoId s = Js.Int z ∧ 0 ≤ z.

(** Every [lastActivity] is a reading of the clock. *)
Definition clockDates (st : Store) : Prop :=
  ∀ sid s, sessions st !! sid = Some s →
    ∃ t, lastActivity s = Js.DateAt t ∧ timeValue t.

(** No member and last activity more than one hour before [now]. *)
Definition idle (now : Z) (s : Session) : Prop :=
  userIds s = [] ∧ ∃ t, lastActivity s = Js.DateAt t ∧ t + 3600000 < now.

(** The fields of a valid update: a non-negative integer time [t], a
    non-negative integer epoch [e], a state [p] that is 'playing' or
    'paused'. *)
Definition playback (d : list (string * Js.value)) (t e : Z) (p : string) :
    Prop :=
  Js.assoc "lastKnownTime" d = Js.Number (Js.Int t) ∧ 0 ≤ t ∧
  Js.assoc "lastKnownTimeUpdatedAt" d = Js.Number (Js.Int e) ∧ 0 ≤ e ∧
  Js.assoc "state" d = Js.Str p ∧ (p = "playing" ∨ p = "paused").

(** A value that is a non-negative integer number. *)
Definition nonNegInt (x : Js.value) : Prop :=
  ∃ z, x = Js.Number (Js.Int z) ∧ 0 ≤ z.

(** Every event of a trace is admissible where it is handled. *)
Fixpoint admissibleTrace (es : list Event) (st : Store) : Prop :=
  match es with
  | [] => True
  | e :: es' =>
    admissible st e ∧
    match handle e st with
    | Returned st' _ => admissibleTrace es' st'
    | Threw _ _ => True
    end
  end.

(** An effect that reports a rejected call: an error acknowledgement or an
    HTTP status other than 200. *)
Definition rejection (ev : Effect) : Prop :=
  match ev with
  | Ack (MError _) => True
  | Http status _ => status ≠ 200
  | _ => False
  end.

(** ** Example stores *)

Definition alice : string := "9a3078cd522cc3ff".
Definition bob : string := "5e1f6c02b7d4a981".
Definition party : string := "84dba68dcea2952c".
Definition party2 : string := "3c7e19a4f05b2d68".

Definition int (z : Z) : Js.value := Js.Number (Js.Int z).

(** The [data] of an [updateSession] call. *)
Definition updateData (t e : Z) (p : string) : Js.value :=
  Js.Object [("lastKnownTime", int t); ("lastKnownTimeUpdatedAt", int e);
             ("state", Js.Str p)].

(** The [data] of a [reboot] call. *)
Definition rebootData (sid : string) (t e : Z) (p : string) (v : Z) :
    Js.value :=
  Js.Object [("sessionId", Js.Str sid); ("lastKnownTime", int t);
             ("lastKnownTimeUpdatedAt", int e); ("state", Js.Str p);
             ("videoId", int v)].

(** One user connected, in no session. *)
Definition lobbyTrace : list Event := [Connection alice].
Definition lobbyStore : Store := finalStore (run lobbyTrace emptyStore).

(** Alice has created a session and sits in it alone. *)
Definition soloTrace : list Event :=
  [Connection alice; CreateSession alice (int 42) party 1000].
Definition soloStore : Store := finalStore (run soloTrace emptyStore).

(** Alice and Bob share a session. *)
Definition pairTrace : list Event :=
  soloTrace ++ [Connection bob; JoinSession bob (Js.Str party)].
Definition pairStore : Store := finalStore (run pairTrace emptyStore).

(** Bob, already in the session, reboots into it. *)
Definition rejoinTrace : list Event :=
  pairTrace ++ [Reboot bob (rebootData party 0 0 "paused" 42) 2000].
Definition rejoinStore : Store := finalStore (run rejoinTrace emptyStore).

(** Alice creates a second session without leaving the first. *)
Definition twiceTrace : list Event :=
  soloTrace ++ [CreateSession alice (int 43) party2 3000].
Definition twiceStore : Store := finalStore (run twiceTrace emptyStore).

(** Alice creates a second session and then disconnects, while Bob stays
    in the first. *)
Definition goneTrace : list Event :=
  pairTrace ++ [CreateSession alice (int 43) party2 3000; Disconnect alice].
Definition goneStore : Store := finalStore (run goneTrace emptyStore).

(** A session made through the legacy API. *)
Definition legacyTrace : list Event :=
  [HttpCreate (Js.Object [("videoId", int 42)]) party 1000].
Definition legacyStore : Store := finalStore (run legacyTrace emptyStore).

(** A legacy session with a negative video id. *)
Definition negativeTrace : list Event :=
  [HttpCreate (Js.Object [("videoId", int (-1))]) party 1000].
Definition negativeStore : Store := finalStore (run negativeTrace emptyStore).

(** ** Identifiers *)

(** [s.replace(/-/g, '')] *)
Fixpoint removeHyphens (s : string) : string :=
  match s with
  | EmptyString => EmptyString
  | String c s' =>
    if Ascii.eqb c "-"%char then removeHyphens s' else String c (removeHyphens s')
  end.

(** [s.substr(n)] for a length [n] that is not negative: [s] without its
    first [n] code units, empty when [s] is shorter. *)
Fixpoint substr (n : nat) (s : string) : string :=
  match n, s with
  | O, _ => s
  | S n', String _ s' => substr n' s'
  | S _, EmptyString => EmptyString
  end.

(** [makeId()], where [uuid] is the string [uuid.v4()] returned. *)
Definition makeId (uuid : string) : string :=
  substr 16 (removeHyphens uuid).

(** No code unit of [s] is a hyphen. *)
Fixpoint hyphenFree (s : string) : bool :=
  match s with
  | EmptyString => true
  | String c s' => negb (Ascii.eqb c "-"%char) && hyphenFree s'
  end.

(** ** More predicates of the properties *)



(** A session filed under its own id whose playback fields hold what the
    validations let through. *)
Definition goodSession (sid : string) (s : Session) : Prop :=
  session_id s = sid ∧
  (state s = "playing" ∨ state s = "paused") ∧
  (∃ z, lastKnownTime s = Js.Int z ∧ 0 ≤ z) ∧
  (∃ z, videoId s = Js.Int z).

(** Every record of the stores is filed under its own id, and every
    session is a good one. *)
Definition wellFormed (st : Store) : Prop :=
  (∀ sid s, sessions st !! sid = Some s → goodSession sid s) ∧
  (∀ u user, users st !! u = Some user → user_id user = u).

(** Every session of the store lists at least one id. *)
Definition occupied (st : Store) : Prop :=
  ∀ sid s, sessions st !! sid = Some s → userIds s ≠ [].

(** The events of the websockets API, the legacy reads and updates and the
    vacuum: all but [POST /sessions/create]. *)
Definition notLegacyCreate (e : Event) : Prop :=
  match e with
  | HttpCreate _ _ _ => False
  | _ => True
  end.

(** The events that can only refresh a stored session: the two updates,
    the legacy read and the ping. *)
Definition refreshing (e : Event) : Prop :=
  match e with
  | HttpUpdate _ _ _ | HttpGet _ _ | UpdateSession _ _ _ | Ping _ _ => True
  | _ => False
  end.

(** Two sessions differ at most in their playback fields and last
    activity. *)
Definition sameParty (s s' : Session) : Prop :=
  session_id s' = session_id s ∧ userIds s' = userIds s ∧
  videoId s' = videoId s.

(** A UUID in its canonical form, as [uuid.v4()] returns them. *)
Definition uuidExample : string := "110ec58a-a0f2-4ac4-8393-c866d813b8d1".

(** A third user has connected while Alice and Bob share a session. *)
Definition carol : string := "c4a01d7e93b25f68".
Definition waitingTrace : list Event := pairTrace ++ [Connection carol].
Definition waitingStore : Store := finalStore (run waitingTrace emptyStore).

(** The session of [pairStore]. *)
Definition pairSession : Session :=
  mkSession party (Js.DateAt 1000) (Js.Int 0) (Js.DateAt 1000) "paused"
    [alice; bob] (Js.Int 42).

(** ** Tactics *)

(** Admissibility of a closed trace, by evaluation. *)
Ltac admissible_trace := vm_compute; repeat split; eauto; discriminate.

(** No effect of a closed list [H] is a rejection. *)
Ltac not_rejected H :=
  exfalso;
  repeat (apply Exists_cons in H as [H|H]; [by simpl in H|]);
  by apply Exists_nil in H.

(** * Properties *)

(** ** Validation *)

Lemma notNonNegInt_false x : notNonNegInt x = false ↔ nonNegInt x.
Proof.
  unfold notNonNegInt, nonNegInt. split.
  - destruct x as [| | |[z| | |]| | |]; simpl; try discriminate.
    intros H. exists z. split; [done|].
    destruct z; simpl in H; try discriminate; lia.
  - intros (z & -> & Hz). simpl. destruct z; simpl; try done; lia.
Qed.

Lemma notNonNegInt_int z : 0 ≤ z → notNonNegInt (Js.Number (Js.Int z)) = false.
Proof. intros Hz. apply notNonNegInt_false. by exists z. Qed.

Lemma playState_ok p :
  p = "playing" ∨ p = "paused" → playState (Js.Str p) = Some p.
Proof. by intros [-> | ->]. Qed.

Lemma playState_Some x p :
  playState x = Some p → x = Js.Str p ∧ (p = "playing" ∨ p = "paused").
Proof.
  destruct x as [| | | | s | |]; simpl; try discriminate.
  destruct (String.eqb s "playing") eqn:E1; simpl.
  - intros [= <-]. apply String.eqb_eq in E1. auto.
  - destruct (String.eqb s "paused") eqn:E2; simpl; [|discriminate].
    intros [= <-]. apply String.eqb_eq in E2. auto.
Qed.

Lemma newDate_in_range e :
  0 ≤ e ≤ Js.maxTime → Js.newDate (Js.Int e) = Js.DateAt e.
Proof.
  intros He. unfold Js.newDate, Js.timeClip.
  destruct (Z.leb_spec (Z.abs e) Js.maxTime); [done | lia].
Qed.

(** ** Lists and maps *)

Lemma elem_of_pull ids u v : v ∈ pull ids u ↔ v ∈ ids ∧ v ≠ u.
Proof. unfold pull. rewrite list_elem_of_filter. tauto. Qed.

Lemma deleteAll_lookup ids (m : gmap string Session) k :
  deleteAll ids m !! k = if decide (k ∈ ids) then None else m !! k.
Proof.
  unfold deleteAll. revert m.
  induction ids as [|i ids IH]; intros m; simpl.
  - destruct (decide (k ∈ [])) as [H|H]; [by apply elem_of_nil in H | done].
  - rewrite IH. destruct (decide (k = i)) as [->|Hne].
    + rewrite lookup_delete_eq.
      destruct (decide (i ∈ ids)) as [Hi|Hi],
        (decide (i ∈ i :: ids)) as [Hc|Hc]; try done;
        exfalso; apply Hc, elem_of_cons; by left.
    + rewrite lookup_delete_ne by done.
      destruct (decide (k ∈ ids)) as [Hi|Hi],
        (decide (k ∈ i :: ids)) as [Hc|Hc]; try done; exfalso.
      * apply Hc, elem_of_cons. by right.
      * apply elem_of_cons in Hc as [Hc|Hc]; done.
Qed.

Lemma elem_of_oldSessionIds now st k :
  k ∈ oldSessionIds now st ↔ ∃ s, sessions st !! k = Some s ∧ old now s = true.
Proof.
  unfold oldSessionIds. rewrite list_elem_of_fmap. split.
  - intros [[k' s] [-> Hin]]. apply list_elem_of_filter in Hin as [Hold Hin].
    apply elem_of_map_to_list in Hin. eauto.
  - intros (s & Hs & Hold). exists (k, s). split; [done|].
    apply list_elem_of_filter. split; [done|]. by apply elem_of_map_to_list.
Qed.

Lemma vacuum_lookup now st k :
  sessions (finalStore (vacuum now st)) !! k =
  match sessions st !! k with
  | Some s => if old now s then None else Some s
  | None => None
  end.
Proof.
  simpl. rewrite deleteAll_lookup.
  destruct (decide (k ∈ oldSessionIds now st)) as [Hin|Hin].
  - apply elem_of_oldSessionIds in Hin as (s & -> & ->). done.
  - destruct (sessions st !! k) as [s|] eqn:Hs; [|done].
    destruct (old now s) eqn:Hold; [|done].
    exfalso. apply Hin, elem_of_oldSessionIds. eauto.
Qed.

(** ** The invariant of the reachable stores *)

Lemma linked_sessions_insert_same st k s s' :
  linked st → sessions st !! k = Some s → userIds s ⊆ userIds s' →
  linked (mkStore (<[k := s']> (sessions st)) (users st)).
Proof.
  intros Hl Hk Hsub u user sid Hu Hsid. simpl in *.
  destruct (Hl u user sid Hu Hsid) as (s0 & Hs0 & Hin).
  destruct (decide (k = sid)) as [->|Hne].
  - rewrite lookup_insert_eq. simplify_eq. eauto.
  - rewrite lookup_insert_ne by done. eauto.
Qed.

Lemma linked_sessions_insert_fresh st k s' :
  linked st → sessions st !! k = None →
  linked (mkStore (<[k := s']> (sessions st)) (users st)).
Proof.
  intros Hl Hk u user sid Hu Hsid. simpl in *.
  destruct (Hl u user sid Hu Hsid) as (s0 & Hs0 & Hin).
  rewrite lookup_insert_ne by congruence. eauto.
Qed.

Lemma linked_enter st u user sid s' :
  linked (mkStore (<[sid := s']> (sessions st)) (users st)) →
  u ∈ userIds s' →
  linked (mkStore (<[sid := s']> (sessions st))
            (<[u := setSessionId (Some sid) user]> (users st))).
Proof.
  intros Hl Hin v user' sid' Hv Hsid. simpl in *.
  destruct (decide (u = v)) as [->|Hne].
  - rewrite lookup_insert_eq in Hv. simplify_eq. simpl in Hsid. simplify_eq.
    rewrite lookup_insert_eq. eauto.
  - rewrite lookup_insert_ne in Hv by done. exact (Hl v user' sid' Hv Hsid).
Qed.

Lemma linked_depart st u user sid s :
  linked st → users st !! u = Some user → sessions st !! sid = Some s →
  linked (depart u user sid s st).
Proof.
  intros Hl Hu Hs v user' sid' Hv Hsid.
  assert (Hv' : v ≠ u ∧ users st !! v = Some user').
  { unfold depart in Hv. destruct (decide (u = v)) as [->|Hne].
    - case_match; simpl in Hv; rewrite lookup_insert_eq in Hv;
        simplify_eq; done.
    - case_match; simpl in Hv; rewrite lookup_insert_ne in Hv by done; done. }
  destruct Hv' as [Hne Hv0].
  destruct (Hl v user' sid' Hv0 Hsid) as (s0 & Hs0 & Hin).
  unfold depart. destruct (decide (sid = sid')) as [->|Hsne].
  - rewrite Hs in Hs0. injection Hs0 as <-.
    assert (Hp : v ∈ pull (userIds s) u) by (by apply elem_of_pull).
    case_match eqn:Hlen; simpl in *.
    + apply Nat.eqb_eq in Hlen. destruct (pull (userIds s) u); [|done].
      by apply elem_of_nil in Hp.
    + rewrite lookup_insert_eq. eauto.
  - case_match; simpl.
    + rewrite lookup_delete_ne, lookup_insert_ne by done. eauto.
    + rewrite lookup_insert_ne by done. eauto.
Qed.

Lemma linked_users_delete st u :
  linked st → linked (mkStore (sessions st) (delete u (users st))).
Proof.
  intros Hl v user sid Hv Hsid. simpl in *.
  apply lookup_delete_Some in Hv as [_ Hv]. eauto.
Qed.

Lemma linked_vacuum now st : linked st → linked (finalStore (vacuum now st)).
Proof.
  intros Hl u user sid Hu Hsid.
  destruct (Hl u user sid Hu Hsid) as (s & Hs & Hin).
  exists s. split; [|done]. rewrite vacuum_lookup, Hs.
  unfold old. destruct (userIds s); [by apply elem_of_nil in Hin|].
  simpl. by rewrite andb_false_r.
Qed.

Lemma handle_linked e st st' out :
  linked st → admissible st e → handle e st = Returned st' out → linked st'.
Proof.
  intros Hl [_ Hadm] He. destruct e; simpl in *.
  - unfold httpCreate in He. repeat case_match; simplify_eq; try done.
    by apply linked_sessions_insert_fresh.
  - unfold httpUpdate in He. repeat case_match; simplify_eq; try done.
    eapply linked_sessions_insert_same; eauto.
  - unfold httpGet in He. repeat case_match; simplify_eq; try done.
    eapply linked_sessions_insert_same; eauto.
  - unfold connection in He. simplify_eq.
    intros v user sid Hv Hsid. simpl in *.
    destruct (decide (newId = v)) as [->|Hne].
    + rewrite lookup_insert_eq in Hv. by simplify_eq.
    + rewrite lookup_insert_ne in Hv by done. eauto.
  - unfold reboot, logged in He. repeat case_match; simplify_eq; try done.
    + apply linked_enter; [|simpl; set_solver].
      eapply linked_sessions_insert_same; eauto. simpl. set_solver.
    + apply linked_enter; [|simpl; set_solver].
      by apply linked_sessions_insert_fresh.
  - unfold createSession, logged in He. destruct Hadm as [_ Hfresh].
    repeat case_match; simplify_eq; try done.
    apply linked_enter; [|simpl; set_solver].
    by apply linked_sessions_insert_fresh.
  - unfold joinSession, logged in He. repeat case_match; simplify_eq; try done.
    apply linked_enter; [|simpl; set_solver].
    eapply linked_sessions_insert_same; eauto. simpl. set_solver.
  - unfold leaveSession in He. repeat case_match; simplify_eq; try done.
    by apply linked_depart.
  - unfold updateSession, logged in He. repeat case_match; simplify_eq; try done.
    eapply linked_sessions_insert_same; eauto.
  - unfold ping in He. by simplify_eq.
  - unfold disconnect in He. repeat case_match; simplify_eq; try done.
    + apply linked_users_delete. by apply linked_depart.
    + by apply (linked_users_delete st).
  - injection He as <- _. by apply linked_vacuum.
Qed.

Lemma reachable_linked st : reachable st → linked st.
Proof.
  induction 1 as [|st e st' out _ IH Hadm He].
  - intros u user sid Hu. simpl in Hu. by rewrite lookup_empty in Hu.
  - eapply handle_linked; eauto.
Qed.

(** Every [lastActivity] of a reachable store is a clock reading. *)
Lemma clockDates_insert st k s reg :
  clockDates st → (∃ t, lastActivity s = Js.DateAt t ∧ timeValue t) →
  clockDates (mkStore (<[k := s]> (sessions st)) reg).
Proof.
  intros Hc Hs sid s' Hl. simpl in Hl.
  apply lookup_insert_Some in Hl as [[_ <-]|[_ Hl]]; eauto.
Qed.

Lemma clockDates_users st reg :
  clockDates st → clockDates (mkStore (sessions st) reg).
Proof. intros Hc sid s Hs. exact (Hc sid s Hs). Qed.

Lemma clockDates_depart st u user sid s :
  clockDates st → sessions st !! sid = Some s →
  clockDates (depart u user sid s st).
Proof.
  intros Hc Hs sid' s' Hl. unfold depart in Hl.
  destruct (length _ =? 0)%nat; simpl in Hl.
  - apply lookup_delete_Some in Hl as [_ Hl].
    apply lookup_insert_Some in Hl as [[_ <-]|[_ Hl]]; eauto.
    exact (Hc sid s Hs).
  - apply lookup_insert_Some in Hl as [[_ <-]|[_ Hl]]; eauto.
    exact (Hc sid s Hs).
Qed.

Lemma handle_clockDates e st st' out :
  clockDates st → admissible st e → handle e st = Returned st' out →
  clockDates st'.
Proof.
  intros Hc [Hclock _] He. destruct e; simpl in *.
  - unfold httpCreate in He. repeat case_match; simplify_eq; try done.
    apply clockDates_insert; simpl; eauto.
  - unfold httpUpdate in He. repeat case_match; simplify_eq; try done.
    apply clockDates_insert; simpl; eauto.
  - unfold httpGet in He. repeat case_match; simplify_eq; try done.
    apply clockDates_insert; simpl; eauto.
  - unfold connection in He. simplify_eq. by apply clockDates_users.
  - unfold reboot, logged in He. repeat case_match; simplify_eq; try done.
    + apply clockDates_insert; simpl; eauto.
    + apply clockDates_insert; simpl; eauto.
  - unfold createSession, logged in He. repeat case_match; simplify_eq; try done.
    apply clockDates_insert; simpl; eauto.
  - unfold joinSession, logged in He. repeat case_match; simplify_eq; try done.
    apply clockDates_insert; simpl; eauto.
  - unfold leaveSession in He. repeat case_match; simplify_eq; try done.
    by apply clockDates_depart.
  - unfold updateSession, logged in He. repeat case_match; simplify_eq; try done.
    apply clockDates_insert; simpl; eauto.
  - unfold ping in He. by simplify_eq.
  - unfold disconnect in He. repeat case_match; simplify_eq; try done.
    apply clockDates_users. by apply clockDates_depart.
  - injection He as <- _. intros sid s Hs.
    pose proof (vacuum_lookup now st sid) as Hv. simpl in Hv, Hs.
    rewrite Hs in Hv. destruct (sessions st !! sid) as [s0|] eqn:E; [|done].
    destruct (old now s0); [done|]. injection Hv as ->. exact (Hc sid s0 E).
Qed.

Lemma reachable_clockDates st : reachable st → clockDates st.
Proof.
  induction 1 as [|st e st' out _ IH Hadm He].
  - intros sid s Hs. simpl in Hs. by rewrite lookup_empty in Hs.
  - eapply handle_clockDates; eauto.
Qed.

(** ** Traces and the example stores *)

Lemma reachable_run es st :
  reachable st → admissibleTrace es st → returned (run es st) = true →
  reachable (finalStore (run es st)).
Proof.
  revert st. induction es as [|e es IH]; intros st Hr Hadm Hret; simpl in *.
  - done.
  - destruct Hadm as [Ha Hrest].
    destruct (handle e st) as [st' out|st' out] eqn:He; [|done].
    apply IH; [|done..]. by eapply reachable_step.
Qed.

Lemma reachable_lobbyStore : reachable lobbyStore.
Proof. apply reachable_run; [constructor | admissible_trace | done]. Qed.

Lemma reachable_soloStore : reachable soloStore.
Proof. apply reachable_run; [constructor | admissible_trace | done]. Qed.

Lemma reachable_pairStore : reachable pairStore.
Proof. apply reachable_run; [constructor | admissible_trace | done]. Qed.

Lemma reachable_rejoinStore : reachable rejoinStore.
Proof. apply reachable_run; [constructor | admissible_trace | done]. Qed.

Lemma reachable_twiceStore : reachable twiceStore.
Proof. apply reachable_run; [constructor | admissible_trace | done]. Qed.

Lemma reachable_goneStore : reachable goneStore.
Proof. apply reachable_run; [constructor | admissible_trace | done]. Qed.

Lemma reachable_legacyStore : reachable legacyStore.
Proof. apply reachable_run; [constructor | admissible_trace | done]. Qed.

Lemma reachable_negativeStore : reachable negativeStore.
Proof. apply reachable_run; [constructor | admissible_trace | done]. Qed.

(** ** The legacy endpoints on small inputs *)

Example httpCreate_42 :
  effects (httpCreate (Js.Object [("videoId", int 42)]) party 1000 emptyStore)
  = [Http 200 (Json (mkSession party (Js.DateAt 1000) (Js.Int 0)
                       (Js.DateAt 1000) "paused" [] (Js.Int 42)))].
Proof. reflexivity. Qed.

Example httpCreate_missing :
  httpCreate (Js.Object []) party 1000 emptyStore =
  Returned emptyStore [Http 500 (Text "Missing parameter: videoId")].
Proof. reflexivity. Qed.

Example httpUpdate_unknown :
  httpUpdate party2
    (Js.Object [("lastKnownTime", int 7); ("state", Js.Str "playing")])
    2000 legacyStore =
  Returned legacyStore [Http 404 (Text "Unknown session id: 3c7e19a4f05b2d68")].
Proof. reflexivity. Qed.

Example httpUpdate_negative_time :
  httpUpdate party
    (Js.Object [("lastKnownTime", int (-1)); ("state", Js.Str "playing")])
    2000 legacyStore =
  Returned legacyStore [Http 500 (Text "Invalid parameter: lastKnownTime")].
Proof. reflexivity. Qed.

Example leaveSession_in_no_session :
  leaveSession alice lobbyStore =
  Returned lobbyStore [Ack (MError "Not in a session.")].
Proof. reflexivity. Qed.

(** ** createSession *)

Lemma effects_logged v st out : effects (logged v st out) = out.
Proof. unfold logged. by destruct (Js.stringThrows v). Qed.

Lemma finalStore_logged v st out : finalStore (logged v st out) = st.
Proof. unfold logged. by destruct (Js.stringThrows v). Qed.

Lemma logged_string s st out : logged (Js.Str s) st out = Returned st out.
Proof. reflexivity. Qed.

(** C3.  For a registered caller and a [videoId] that is a non-negative
    integer, [createSession] registers under the new id a session that is
    paused at time 0, updated at the current time, with the caller as its
    only member, sets the caller's [sessionId] to the new id and
    acknowledges with the new id and those playback fields.  For every
    other [videoId] it answers 'Invalid video ID.', and nothing else, and
    leaves the stores as they were, whether its log line then throws or
    not. *)
Theorem createSession_registers_paused_session st u user x newId now :
  users st !! u = Some user →
  (∀ z, x = Js.Number (Js.Int z) → 0 ≤ z →
     createSession u x newId now st =
     Returned
       (mkStore
          (<[newId := mkSession newId (Js.DateAt now) (Js.Int 0)
                        (Js.DateAt now) "paused" [u] (Js.Int z)]>
             (sessions st))
          (<[u := mkUser (user_id user) (Some newId)]> (users st)))
       [Ack (MCreated (Js.Int 0) (Js.Int now) newId "paused")]) ∧
  (¬ nonNegInt x →
     effects (createSession u x newId now st) =
       [Ack (MError "Invalid video ID.")] ∧
     finalStore (createSession u x newId now st) = st).
Proof.
  intros Hu. split.
  - intros z -> Hz. unfold createSession.
    rewrite (notNonNegInt_int z Hz), Hu. done.
  - intros Hx. unfold createSession.
    destruct (notNonNegInt x) eqn:E.
    + by rewrite effects_logged, finalStore_logged.
    + exfalso. by apply Hx, notNonNegInt_false.
Qed.

Lemma createSession_registers_paused_session_witness :
  users lobbyStore !! alice = Some (mkUser alice None) ∧
  (∀ z, int 42 = Js.Number (Js.Int z) → 0 ≤ z →
     createSession alice (int 42) party 1000 lobbyStore =
     Returned
       (mkStore
          (<[party := mkSession party (Js.DateAt 1000) (Js.Int 0)
                        (Js.DateAt 1000) "paused" [alice] (Js.Int z)]>
             (sessions lobbyStore))
          (<[alice := mkUser alice (Some party)]> (users lobbyStore)))
       [Ack (MCreated (Js.Int 0) (Js.Int 1000) party "paused")]) ∧
  (¬ nonNegInt (int 42) →
     effects (createSession alice (int 42) party 1000 lobbyStore) =
       [Ack (MError "Invalid video ID.")] ∧
     finalStore (createSession alice (int 42) party 1000 lobbyStore) =
       lobbyStore).
Proof.
  assert (Hu : users lobbyStore !! alice = Some (mkUser alice None))
    by reflexivity.
  exact (conj Hu
    (createSession_registers_paused_session lobbyStore alice
       (mkUser alice None) (int 42) party 1000 Hu)).
Defined.

(** A [videoId] that is an object with a [toString] property of its own is
    rejected, and the log line of the rejection throws. *)
Example createSession_log_line_throws :
  createSession alice (Js.Object [("toString", Js.Null)]) party 1000 lobbyStore
  = Threw lobbyStore [Ack (MError "Invalid video ID.")].
Proof. reflexivity. Qed.

(** ** joinSession *)

Lemma joinSession_absent v sid st :
  sessions st !! sid = None →
  joinSession v (Js.Str sid) st =
  Returned st [Ack (MError "Invalid session ID.")].
Proof. intros Hs. unfold joinSession. by rewrite Hs. Qed.



(** The id is looked up before the caller's [sessionId]: a caller already
    in a session who asks for an id that is not in the store is answered
    'Invalid session ID.'. *)
Lemma joinSession_unknown_id_while_in_session :
  reachable soloStore ∧
  (∃ user, users soloStore !! alice = Some user ∧
           sessionId user = Some party) ∧
  sessions soloStore !! party2 = None ∧
  joinSession alice (Js.Str party2) soloStore =
    Returned soloStore [Ack (MError "Invalid session ID.")] ∧
  joinSession alice (Js.Str party2) soloStore ≠
    Returned soloStore [Ack (MError "Already in a session.")].
Proof.
  split; [apply reachable_soloStore|].
  split; [by eexists|]. split; [done|]. split; [done|].
  discriminate.
Qed.

(** ** reboot *)


Lemma playback_updateData t e p :
  0 ≤ t → 0 ≤ e → p = "playing" ∨ p = "paused" →
  playback [("lastKnownTime", int t); ("lastKnownTimeUpdatedAt", int e);
            ("state", Js.Str p)] t e p.
Proof. intros Ht He Hp. repeat split; done. Qed.

Lemma playback_rebootData sid t e p v :
  0 ≤ t → 0 ≤ e → p = "playing" ∨ p = "paused" →
  playback [("sessionId", Js.Str sid); ("lastKnownTime", int t);
            ("lastKnownTimeUpdatedAt", int e); ("state", Js.Str p);
            ("videoId", int v)] t e p.
Proof. intros Ht He Hp. repeat split; done. Qed.



(** ** updateSession *)

Lemma sendUpdates_registered registry u m ids :
  (∀ v, v ∈ ids → v ≠ u → is_Some (registry !! v)) →
  sendUpdates registry u m ids =
  ((λ v, Emit v "update" m) <$> pull ids u, true).
Proof.
  induction ids as [|id ids IH]; intros Hreg; [done|].
  simpl. unfold pull in *. rewrite filter_cons.
  destruct (decide (id ≠ u)) as [Hne|Heq].
  - destruct (Hreg id) as [x ->]; [by left | done |].
    rewrite IH; [done|]. intros v Hv. apply Hreg. by right.
  - apply IH. intros v Hv. apply Hreg. by right.
Qed.

Lemma updateSession_valid st u user sid s data d t e p now :
  users st !! u = Some user → sessionId user = Some sid →
  sessions st !! sid = Some s →
  Js.fields data = Some d → playback d t e p →
  let s' :=
    mkSession (session_id s) (Js.DateAt now) (Js.Int t)
      (Js.newDate (Js.Int e)) p (userIds s) (videoId s) in
  let st' := mkStore (<[sid := s']> (sessions st)) (users st) in
  let m := MState (Js.Int t) (Js.getTime (Js.newDate (Js.Int e))) p in
  let r := sendUpdates (users st) u m (userIds s) in
  updateSession u data now st =
  if r.2 then Returned st' (Ack MNothing :: r.1)
  else Threw st' (Ack MNothing :: r.1).
Proof.
  intros Hu Hsid Hs Hd (Ht & Ht0 & He & He0 & Hp & Hp').
  unfold updateSession. rewrite Hu, Hsid, Hd, Ht, He, Hp, Hs.
  rewrite !notNonNegInt_int by done. rewrite (playState_ok p Hp'). simpl.
  destruct (sendUpdates _ _ _ _) as [out ok]. done.
Qed.

Lemma updateSession_stores_epoch st u user sid s data d t e p now :
  users st !! u = Some user → sessionId user = Some sid →
  sessions st !! sid = Some s →
  Js.fields data = Some d → playback d t e p →
  sessions (finalStore (updateSession u data now st)) !! sid =
  Some (mkSession (session_id s) (Js.DateAt now) (Js.Int t)
          (Js.newDate (Js.Int e)) p (userIds s) (videoId s)).
Proof.
  intros Hu Hsid Hs Hd Hp.
  rewrite (updateSession_valid st u user sid s data d t e p now) by done.
  simpl. destruct (sendUpdates _ _ _ _).2; simpl; by rewrite lookup_insert_eq.
Qed.

(** C1, amended.  The caller's [sessionId] names a session of the store
    whose [userIds] lists no id twice and, but for the caller, only
    registered ids; the input is valid with [lastKnownTimeUpdatedAt] at
    most 8.64e15 (the range of a Date).  Then [updateSession] returns,
    overwrites the session's [lastKnownTime], [lastKnownTimeUpdatedAt] and
    [state] with exactly the caller's values ([lastActivity] with the
    clock), acknowledges, and pushes exactly one update carrying those
    three values to every other member, and none to the caller. *)
Theorem updateSession_overwrites_and_broadcasts
    st u user sid s data d t e p now :
  users st !! u = Some user → sessionId user = Some sid →
  sessions st !! sid = Some s →
  Js.fields data = Some d → playback d t e p → e ≤ Js.maxTime →
  NoDup (userIds s) →
  (∀ v, v ∈ userIds s → v ≠ u → is_Some (users st !! v)) →
  let s' :=
    mkSession (session_id s) (Js.DateAt now) (Js.Int t) (Js.DateAt e) p
      (userIds s) (videoId s) in
  let m := MState (Js.Int t) (Js.Int e) p in
  ∃ targets,
    updateSession u data now st =
      Returned (mkStore (<[sid := s']> (sessions st)) (users st))
        (Ack MNothing :: ((λ v, Emit v "update" m) <$> targets)) ∧
    NoDup targets ∧
    (∀ v, v ∈ targets ↔ v ∈ userIds s ∧ v ≠ u).
Proof.
  intros Hu Hsid Hs Hd Hp He Hnd Hreg s' m.
  assert (He' : 0 ≤ e ≤ Js.maxTime) by (destruct Hp as (_&_&_&?&_); lia).
  exists (pull (userIds s) u). split; [|split].
  - rewrite (updateSession_valid st u user sid s data d t e p now) by done.
    rewrite (newDate_in_range e He').
    rewrite (sendUpdates_registered _ _ _ _ Hreg). done.
  - by apply NoDup_filter.
  - intros v. apply elem_of_pull.
Qed.

Lemma updateSession_overwrites_and_broadcasts_witness :
  users pairStore !! alice = Some (mkUser alice (Some party)) ∧
  sessions pairStore !! party =
    Some (mkSession party (Js.DateAt 1000) (Js.Int 0) (Js.DateAt 1000)
            "paused" [alice; bob] (Js.Int 42)) ∧
  9 ≤ Js.maxTime ∧
  NoDup [alice; bob] ∧
  (∀ v, v ∈ [alice; bob] → v ≠ alice → is_Some (users pairStore !! v)) ∧
  ∃ targets,
    updateSession alice (updateData 7 9 "playing") 4000 pairStore =
      Returned
        (mkStore
           (<[party := mkSession party (Js.DateAt 4000) (Js.Int 7)
                         (Js.DateAt 9) "playing" [alice; bob] (Js.Int 42)]>
              (sessions pairStore))
           (users pairStore))
        (Ack MNothing ::
         ((λ v, Emit v "update" (MState (Js.Int 7) (Js.Int 9) "playing")) <$>
          targets)) ∧
    NoDup targets ∧
    (∀ v, v ∈ targets ↔ v ∈ [alice; bob] ∧ v ≠ alice).
Proof.
  assert (Hu : users pairStore !! alice = Some (mkUser alice (Some party)))
    by reflexivity.
  assert (Hs : sessions pairStore !! party =
    Some (mkSession party (Js.DateAt 1000) (Js.Int 0) (Js.DateAt 1000)
            "paused" [alice; bob] (Js.Int 42))) by reflexivity.
  assert (Hmax : 9 ≤ Js.maxTime) by (unfold Js.maxTime; lia).
  assert (Hpb : playback
            [("lastKnownTime", int 7); ("lastKnownTimeUpdatedAt", int 9);
             ("state", Js.Str "playing")] 7 9 "playing")
    by (apply playback_updateData; [lia | lia | left; reflexivity]).
  assert (Hnd : NoDup [alice; bob]).
  { apply NoDup_cons. split; [|apply NoDup_singleton].
    intros H. apply list_elem_of_singleton in H. discriminate H. }
  assert (Hreg : ∀ v, v ∈ [alice; bob] → v ≠ alice →
                      is_Some (users pairStore !! v)).
  { intros v Hv Hne. apply elem_of_cons in Hv as [->|Hv]; [done|].
    apply list_elem_of_singleton in Hv as ->. vm_compute. eauto. }
  exact (conj Hu (conj Hs (conj Hmax (conj Hnd (conj Hreg
    (updateSession_overwrites_and_broadcasts pairStore alice
       (mkUser alice (Some party)) party _
       (updateData 7 9 "playing") _ 7 9 "playing" 4000
       Hu eq_refl Hs eq_refl Hpb Hmax Hnd Hreg)))))).
Defined.

(** C1 as stated fails: [lastKnownTimeUpdatedAt] = 10^16 is a non-negative
    integer, and on a reachable store where Alice and Bob share a session
    Alice's update leaves an Invalid Date in the session and pushes NaN to
    Bob, not the caller's value. *)
Lemma updateSession_epoch_beyond_date_range :
  reachable pairStore ∧
  (∃ user s, users pairStore !! alice = Some user ∧
     sessionId user = Some party ∧
     sessions pairStore !! party = Some s ∧ userIds s = [alice; bob]) ∧
  effects
    (updateSession alice (updateData 7 (10 ^ 16) "playing") 4000 pairStore) =
    [Ack MNothing; Emit bob "update" (MState (Js.Int 7) Js.NaN "playing")] ∧
  lastKnownTimeUpdatedAt <$>
    sessions
      (finalStore
         (updateSession alice (updateData 7 (10 ^ 16) "playing") 4000
            pairStore)) !! party = Some Js.InvalidDate.
Proof.
  split; [apply reachable_pairStore|]. split; [|split; reflexivity].
  eexists _, _. repeat split; reflexivity.
Qed.

(** ** leaveSession and disconnect *)

Lemma depart_lookup u user sid s st k :
  sessions (depart u user sid s st) !! k =
  if decide (k = sid) then
    if decide (pull (userIds s) u = []) then None
    else Some (setUserIds (pull (userIds s) u) s)
  else sessions st !! k.
Proof.
  unfold depart. simpl.
  destruct (decide (pull (userIds s) u = [])) as [Hp|Hp].
  - rewrite Hp. simpl. destruct (decide (k = sid)) as [->|Hne].
    + by rewrite lookup_delete_eq.
    + by rewrite lookup_delete_ne, lookup_insert_ne.
  - destruct (pull (userIds s) u) eqn:E; [done|]. simpl.
    destruct (decide (k = sid)) as [->|Hne].
    + by rewrite lookup_insert_eq.
    + by rewrite lookup_insert_ne.
Qed.

(** On a linked store both handlers return; the sessions they leave are
    those of [depart], or the same when the user was in no session. *)
Lemma departure_returns st u user e :
  linked st → users st !! u = Some user →
  e = LeaveSession u ∨ e = Disconnect u →
  ∃ st' out, handle e st = Returned st' out ∧
    match sessionId user with
    | Some sid =>
        ∃ s, sessions st !! sid = Some s ∧
             sessions st' = sessions (depart u user sid s st)
    | None => sessions st' = sessions st
    end.
Proof.
  intros Hl Hu He.
  destruct (sessionId user) as [sid|] eqn:Hsid.
  - destruct (Hl u user sid Hu Hsid) as (s & Hs & _).
    destruct He as [-> | ->]; simpl.
    + unfold leaveSession. rewrite Hu, Hsid, Hs. eauto 6.
    + unfold disconnect. rewrite Hu, Hsid, Hs. eauto 6.
  - destruct He as [-> | ->]; simpl.
    + unfold leaveSession. rewrite Hu, Hsid. eauto.
    + unfold disconnect. rewrite Hu, Hsid. eauto.
Qed.

Lemma pull_nil ids u : pull ids u = [] ↔ ∀ v, v ∈ ids → v = u.
Proof.
  split.
  - intros Hp v Hv. destruct (decide (v = u)) as [|Hne]; [done|].
    assert (Hin : v ∈ pull ids u) by (by apply elem_of_pull).
    rewrite Hp in Hin. by apply elem_of_nil in Hin.
  - intros Hall. destruct (pull ids u) as [|v l] eqn:E; [done|].
    assert (Hin : v ∈ pull ids u) by (rewrite E; by left).
    apply elem_of_pull in Hin as [Hin Hne]. by destruct (Hne (Hall v Hin)).
Qed.

(** C4.  In every reachable store, [leaveSession] and [disconnect] of a
    connected user return, and in the store they leave: the user's session
    is gone when it listed no other id; otherwise it is the same session
    with, in the same order, exactly the ids it listed other than the
    user's; no session that is still there has been emptied by the call (a
    session with no member was already there, as it is); a [joinSession]
    with the id of a session that is gone is answered 'Invalid session
    ID.'; and no member count is negative. *)
Theorem emptied_session_is_removed st u e :
  reachable st → is_Some (users st !! u) →
  e = LeaveSession u ∨ e = Disconnect u →
  ∃ st' out,
    handle e st = Returned st' out ∧
    (∀ user sid s,
       users st !! u = Some user → sessionId user = Some sid →
       sessions st !! sid = Some s →
       ((∀ v, v ∈ userIds s → v = u) → sessions st' !! sid = None) ∧
       ((∃ v, v ∈ userIds s ∧ v ≠ u) →
        ∃ ids,
          sessions st' !! sid =
            Some (mkSession (session_id s) (lastActivity s) (lastKnownTime s)
                    (lastKnownTimeUpdatedAt s) (state s) ids (videoId s)) ∧
          sublist ids (userIds s) ∧
          (∀ v, v ∈ ids ↔ v ∈ userIds s ∧ v ≠ u))) ∧
    (∀ sid s', sessions st' !! sid = Some s' → userIds s' = [] →
       sessions st !! sid = Some s') ∧
    (∀ sid v, sessions st' !! sid = None →
       joinSession v (Js.Str sid) st' =
       Returned st' [Ack (MError "Invalid session ID.")]) ∧
    (∀ sid s', sessions st' !! sid = Some s' →
       0 ≤ Z.of_nat (length (userIds s'))).
Proof.
  intros Hr [user Hu] He. pose proof (reachable_linked st Hr) as Hl.
  destruct (departure_returns st u user e Hl Hu He) as (st' & out & Hh & Hk).
  exists st', out. split; [done|]. split; [|split; [|split]].
  - intros user' sid s Hu' Hsid Hs. rewrite Hu in Hu'. injection Hu' as <-.
    rewrite Hsid in Hk. destruct Hk as (s0 & Hs0 & ->).
    rewrite Hs in Hs0. injection Hs0 as <-.
    rewrite depart_lookup, decide_True by done.
    split.
    + intros Hall. apply pull_nil in Hall. by rewrite decide_True.
    + intros (v & Hv & Hne). exists (pull (userIds s) u).
      rewrite decide_False.
      * split; [done|]. split; [apply sublist_filter|].
        intros w. apply elem_of_pull.
      * intros Hp. apply Hne. by apply (proj1 (pull_nil _ _) Hp).
  - intros sid s' Hs' Hempty.
    destruct (sessionId user) as [sid0|]; [|by rewrite <- Hk].
    destruct Hk as (s0 & Hs0 & Heq). rewrite Heq, depart_lookup in Hs'.
    destruct (decide (sid = sid0)) as [->|Hne]; [|done].
    destruct (decide (pull (userIds s0) u = [])) as [Hp|Hp]; [done|].
    injection Hs' as <-. done.
  - intros sid v Hs. by apply joinSession_absent.
  - intros. lia.
Qed.

Lemma emptied_session_is_removed_witness :
  reachable soloStore ∧ is_Some (users soloStore !! alice) ∧
  (∀ v, v ∈ [alice] → v = alice) ∧
  ∃ st' out,
    handle (LeaveSession alice) soloStore = Returned st' out ∧
    sessions st' !! party = None ∧
    joinSession bob (Js.Str party) st' =
      Returned st' [Ack (MError "Invalid session ID.")].
Proof.
  assert (Hu : is_Some (users soloStore !! alice)) by (vm_compute; eauto).
  assert (He : LeaveSession alice = LeaveSession alice ∨
               LeaveSession alice = Disconnect alice) by (left; reflexivity).
  assert (Hlast : ∀ v, v ∈ [alice] → v = alice)
    by (intros v Hv; by apply list_elem_of_singleton in Hv).
  split; [exact reachable_soloStore|]. split; [exact Hu|].
  split; [exact Hlast|].
  destruct (emptied_session_is_removed soloStore alice (LeaveSession alice)
              reachable_soloStore Hu He)
    as (st' & out & Hh & Hmine & _ & Hjoin & _).
  exists st', out. split; [exact Hh|].
  assert (Hgone : sessions st' !! party = None).
  { exact (proj1 (Hmine (mkUser alice (Some party)) party
                    (mkSession party (Js.DateAt 1000) (Js.Int 0)
                       (Js.DateAt 1000) "paused" [alice] (Js.Int 42))
                    eq_refl eq_refl eq_refl) Hlast). }
  split; [exact Hgone | exact (Hjoin party bob Hgone)].
Defined.

(** ** The vacuum *)

Lemma old_idle now s t :
  timeValue now → lastActivity s = Js.DateAt t → timeValue t →
  old now s = true ↔ idle now s.
Proof.
  unfold timeValue, old, idle, Js.maxTime. intros Hnow Hs Ht. rewrite Hs. simpl.
  rewrite andb_true_iff, Nat.eqb_eq, length_zero_iff_nil.
  change (1000 * 60 * 60) with 3600000. unfold Js.maxTime.
  destruct (Z.leb_spec (Z.abs (t + 3600000)) 8640000000000000) as [Hc|Hc];
    simpl.
  - rewrite Z.ltb_lt. split.
    + intros [Hlt He]. split; [done|]. exists t. done.
    + intros [He (t' & [= <-] & Hlt)]. done.
  - split; [intros [[=] _]|].
    intros [_ (t' & [= <-] & Hlt)]. lia.
Qed.

Lemma vacuum_idempotent now st st' :
  vacuum now st = Returned st' [] → vacuum now st' = Returned st' [].
Proof.
  intros [= <-]. unfold vacuum. f_equal. simpl.
  set (st' := mkStore (deleteAll (oldSessionIds now st) (sessions st))
                (users st)).
  change (mkStore (deleteAll (oldSessionIds now st') (sessions st'))
            (users st') = st').
  assert (Hk : deleteAll (oldSessionIds now st') (sessions st') = sessions st').
  { apply map_eq. intros k. rewrite deleteAll_lookup.
    destruct (decide (k ∈ oldSessionIds now st')) as [Hin|Hin]; [|done].
    apply elem_of_oldSessionIds in Hin as (s & Hs & Hold).
    pose proof (vacuum_lookup now st k) as Hv. simpl in Hv.
    change (sessions st' !! k =
            match sessions st !! k with
            | Some s0 => if old now s0 then None else Some s0
            | None => None
            end) in Hv.
    rewrite Hs in Hv. destruct (sessions st !! k) as [s0|]; [|done].
    destruct (old now s0) eqn:E; [done|]. congruence. }
  rewrite Hk. done.
Qed.

(** C9.  At a clock reading [now], on a store whose [lastActivity] fields
    are clock readings, the vacuum collects ids in a first pass and deletes
    them in a second; it deletes exactly the sessions that have no member
    and whose last activity is more than one hour old, keeps every other
    session as it is, leaves the users alone, and running it again at the
    same instant deletes nothing. *)
Theorem vacuum_deletes_idle_once now st :
  timeValue now → clockDates st →
  ∃ st',
    vacuum now st = Returned st' [] ∧
    sessions st' = deleteAll (oldSessionIds now st) (sessions st) ∧
    users st' = users st ∧
    (∀ sid s, sessions st !! sid = Some s →
       (idle now s → sessions st' !! sid = None) ∧
       (¬ idle now s → sessions st' !! sid = Some s)) ∧
    (∀ sid, sessions st !! sid = None → sessions st' !! sid = None) ∧
    vacuum now st' = Returned st' [].
Proof.
  intros Hnow Hdates. eexists. split; [reflexivity|].
  split; [done|]. split; [done|]. split; [|split].
  - intros sid s Hs. destruct (Hdates sid s Hs) as (t & Ht & Htv).
    pose proof (vacuum_lookup now st sid) as Hv. simpl in Hv. rewrite Hs in Hv.
    pose proof (old_idle now s t Hnow Ht Htv) as Hiff.
    simpl. rewrite Hv. destruct (old now s); split; intros Hi; try done.
    + exfalso. apply Hi, Hiff. done.
    + apply Hiff in Hi. done.
  - intros sid Hs. pose proof (vacuum_lookup now st sid) as Hv.
    simpl in Hv. by rewrite Hs in Hv.
  - by apply (vacuum_idempotent now st).
Qed.

Lemma vacuum_deletes_idle_once_witness :
  timeValue 3601001 ∧ clockDates legacyStore ∧
  ∃ st',
    vacuum 3601001 legacyStore = Returned st' [] ∧
    sessions st' =
      deleteAll (oldSessionIds 3601001 legacyStore) (sessions legacyStore) ∧
    users st' = users legacyStore ∧
    (∀ sid s, sessions legacyStore !! sid = Some s →
       (idle 3601001 s → sessions st' !! sid = None) ∧
       (¬ idle 3601001 s → sessions st' !! sid = Some s)) ∧
    (∀ sid, sessions legacyStore !! sid = None → sessions st' !! sid = None) ∧
    vacuum 3601001 st' = Returned st' [].
Proof.
  assert (Hnow : timeValue 3601001) by (unfold timeValue, Js.maxTime; lia).
  assert (Hd : clockDates legacyStore).
  { intros sid s Hs. unfold legacyStore in Hs. simpl in Hs.
    apply lookup_insert_Some in Hs as [[_ <-]|[_ Hs]]; [|done].
    exists 1000. split; [done|]. unfold timeValue, Js.maxTime. lia. }
  exact (conj Hnow (conj Hd
    (vacuum_deletes_idle_once 3601001 legacyStore Hnow Hd))).
Defined.

(** The legacy session of [legacyStore], idle after an hour, is deleted. *)
Example vacuum_legacyStore :
  sessions (finalStore (vacuum 3601001 legacyStore)) !! party = None ∧
  sessions (finalStore (vacuum 3601000 legacyStore)) !! party =
    sessions legacyStore !! party.
Proof. split; reflexivity. Qed.

(** ** Legacy update *)

Lemma httpUpdate_reads_two_fields id req req' now st :
  Js.assoc "lastKnownTime" req = Js.assoc "lastKnownTime" req' →
  Js.assoc "state" req = Js.assoc "state" req' →
  httpUpdate id (Js.Object req) now st = httpUpdate id (Js.Object req') now st.
Proof. intros H1 H2. unfold httpUpdate. simpl. by rewrite H1, H2. Qed.

(** C10, amended.  A legacy update of a session of the store with a valid
    body (a non-negative integer [lastKnownTime], a state 'playing' or
    'paused') answers 200 and sets both [lastKnownTimeUpdatedAt] and
    [lastActivity] to the server's clock reading; a
    [lastKnownTimeUpdatedAt] in the body changes nothing.  The live
    [updateSession] stores the caller's epoch instead, whatever the clock
    reads, verbatim when the epoch is at most 8.64e15 (the range of a
    Date). *)
Theorem httpUpdate_stamps_server_clock id req t p now st s :
  sessions st !! id = Some s →
  Js.assoc "lastKnownTime" req = Js.Number (Js.Int t) → 0 ≤ t →
  Js.assoc "state" req = Js.Str p → p = "playing" ∨ p = "paused" →
  let s' :=
    mkSession (session_id s) (Js.DateAt now) (Js.Int t) (Js.DateAt now) p
      (userIds s) (videoId s) in
  httpUpdate id (Js.Object req) now st =
    Returned (mkStore (<[id := s']> (sessions st)) (users st))
      [Http 200 (Json s')] ∧
  lastActivity s' = Js.DateAt now ∧
  lastKnownTimeUpdatedAt s' = Js.DateAt now ∧
  (∀ x,
     httpUpdate id (Js.Object (("lastKnownTimeUpdatedAt", x) :: req)) now st =
     httpUpdate id (Js.Object req) now st) ∧
  (∀ u user data d t' e p' now',
     users st !! u = Some user → sessionId user = Some id →
     Js.fields data = Some d → playback d t' e p' → e ≤ Js.maxTime →
     lastKnownTimeUpdatedAt <$>
       sessions (finalStore (updateSession u data now' st)) !! id =
     Some (Js.DateAt e)).
Proof.
  intros Hs Ht Ht0 Hp Hp' s'. split; [|split; [|split; [|split]]].
  2, 3: reflexivity.
  - unfold httpUpdate. rewrite Hs. simpl. rewrite Ht, Hp. simpl.
    destruct (Z.ltb_spec t 0) as [?|_]; [lia|].
    change (if negb (p =? "playing")%string && negb (p =? "paused")%string
            then None else Some p) with (playState (Js.Str p)).
    rewrite (playState_ok p Hp'). done.
  - intros x. by apply httpUpdate_reads_two_fields.
  - intros u user data d t' e p' now' Hu Hsid Hd Hpb He.
    rewrite (updateSession_stores_epoch st u user id s data d t' e p' now')
      by done.
    rewrite newDate_in_range; [done|].
    destruct Hpb as (_ & _ & _ & ? & _). lia.
Qed.

Lemma httpUpdate_stamps_server_clock_witness :
  sessions legacyStore !! party =
    Some (mkSession party (Js.DateAt 1000) (Js.Int 0) (Js.DateAt 1000)
            "paused" [] (Js.Int 42)) ∧
  0 ≤ 7 ∧
  ("playing" = "playing" ∨ "playing" = "paused") ∧
  httpUpdate party
    (Js.Object [("lastKnownTime", int 7); ("lastKnownTimeUpdatedAt", int 9);
                ("state", Js.Str "playing")])
    5000 legacyStore =
  Returned
    (mkStore
       (<[party := mkSession party (Js.DateAt 5000) (Js.Int 7) (Js.DateAt 5000)
                     "playing" [] (Js.Int 42)]> (sessions legacyStore))
       (users legacyStore))
    [Http 200 (Json (mkSession party (Js.DateAt 5000) (Js.Int 7)
                       (Js.DateAt 5000) "playing" [] (Js.Int 42)))].
Proof.
  assert (H0 : 0 ≤ 7) by lia.
  assert (Hp : "playing" = "playing" ∨ "playing" = "paused")
    by (left; reflexivity).
  exact (conj eq_refl (conj H0 (conj Hp
    (proj1 (httpUpdate_stamps_server_clock party
       [("lastKnownTime", int 7); ("lastKnownTimeUpdatedAt", int 9);
        ("state", Js.Str "playing")] 7 "playing"
       5000 legacyStore _ eq_refl eq_refl H0 eq_refl Hp))))).
Defined.

(** C10 as stated fails in its last clause: the live path does not store
    the caller's timestamp verbatim when it is 10^16, a non-negative
    integer; the session then holds an Invalid Date. *)
Lemma updateSession_epoch_not_verbatim :
  reachable soloStore ∧
  playback
    [("lastKnownTime", int 7); ("lastKnownTimeUpdatedAt", int (10 ^ 16));
     ("state", Js.Str "playing")] 7 (10 ^ 16) "playing" ∧
  updateSession alice (updateData 7 (10 ^ 16) "playing") 4000 soloStore =
    Returned
      (finalStore
         (updateSession alice (updateData 7 (10 ^ 16) "playing") 4000
            soloStore))
      [Ack MNothing] ∧
  lastKnownTimeUpdatedAt <$>
    sessions
      (finalStore
         (updateSession alice (updateData 7 (10 ^ 16) "playing") 4000
            soloStore)) !! party = Some Js.InvalidDate ∧
  Js.InvalidDate ≠ Js.DateAt (10 ^ 16).
Proof.
  split; [apply reachable_soloStore|]. split.
  - apply playback_updateData; [lia | lia | left; reflexivity].
  - split; [reflexivity|]. split; [reflexivity | discriminate].
Qed.

(** ** Rejected input leaves the stores as they were *)

Lemma sendUpdates_no_rejection registry u m ids :
  ¬ Exists rejection (sendUpdates registry u m ids).1.
Proof.
  induction ids as [|id ids IH]; simpl.
  - by intros H%Exists_nil.
  - destruct (decide (id ≠ u)); [|done].
    destruct (registry !! id); [|by intros H%Exists_nil].
    destruct (sendUpdates registry u m ids) as [out ok]. simpl in *.
    intros [H|H]%Exists_cons; done.
Qed.

(** Every handler validates before it writes: a call that returns with an
    error acknowledgement or an HTTP error status has changed neither
    store. *)
Lemma rejected_unchanged e st st' out :
  handle e st = Returned st' out → Exists rejection out → st' = st.
Proof.
  intros He Hrej. destruct e; simpl in He.
  - unfold httpCreate in He. repeat case_match; simplify_eq; try done.
    not_rejected Hrej.
  - unfold httpUpdate in He. repeat case_match; simplify_eq; try done.
    not_rejected Hrej.
  - unfold httpGet in He. repeat case_match; simplify_eq; try done.
    not_rejected Hrej.
  - unfold connection in He. simplify_eq. not_rejected Hrej.
  - unfold reboot, logged in He. repeat case_match; simplify_eq; try done.
    all: not_rejected Hrej.
  - unfold createSession, logged in He. repeat case_match; simplify_eq; try done.
    not_rejected Hrej.
  - unfold joinSession, logged in He. repeat case_match; simplify_eq; try done.
    not_rejected Hrej.
  - unfold leaveSession in He. repeat case_match; simplify_eq; try done.
    not_rejected Hrej.
  - unfold updateSession, logged in He.
    destruct (users st !! userId) as [user|]; [|done].
    destruct (sessionId user) as [sid|]; [|by simplify_eq].
    destruct (Js.fields data) as [d|]; [|done].
    repeat (case_match; simplify_eq; try done).
    match goal with H : sendUpdates ?r ?u ?m ?ids = _ |- _ =>
      pose proof (sendUpdates_no_rejection r u m ids) as Hno;
      rewrite H in Hno end.
    apply Exists_cons in Hrej as [Hrej|Hrej]; done.
  - unfold ping in He. simplify_eq. not_rejected Hrej.
  - unfold disconnect in He. repeat case_match; simplify_eq;
      by apply Exists_nil in Hrej.
  - unfold vacuum in He. simplify_eq. by apply Exists_nil in Hrej.
Qed.

(** ** Where the handlers depart from the specification *)

(** C5.  The two-way membership invariant does not hold in every reachable
    store: [createSession] (like [reboot]) does not look at the caller's
    current [sessionId], as [joinSession] does.  After Alice creates a
    second session without leaving the first she is listed in both, while
    her [sessionId] names only the second. *)
Theorem createSession_twice_breaks_membership :
  reachable twiceStore ∧
  (∃ user s1 s2,
     users twiceStore !! alice = Some user ∧
     sessionId user = Some party2 ∧
     sessions twiceStore !! party = Some s1 ∧ alice ∈ userIds s1 ∧
     sessions twiceStore !! party2 = Some s2 ∧ alice ∈ userIds s2) ∧
  ¬ membershipConsistent twiceStore.
Proof.
  split; [apply reachable_twiceStore|]. split.
  - eexists _, _, _. repeat split; try reflexivity; apply list_elem_of_here.
  - intros Hc.
    destruct (proj1 (Hc alice party _ eq_refl)) as (user & Hu & Hsid).
    + apply list_elem_of_here.
    + vm_compute in Hu. injection Hu as <-. discriminate Hsid.
Qed.

(** C7.  Handlers do throw on reachable stores: [reboot] and
    [updateSession] read a property of their [data] argument, which throws
    when the client sent [null] or nothing; and the loop of [updateSession]
    reads [users[id].socket] for an id that [userIds] still lists after its
    user disconnected, which throws after the session was overwritten and
    the call acknowledged. *)
Theorem handlers_throw :
  (reachable lobbyStore ∧ admissible lobbyStore (Reboot alice Js.Null 2000) ∧
   reboot alice Js.Null 2000 lobbyStore = Threw lobbyStore []) ∧
  (reachable soloStore ∧
   admissible soloStore (UpdateSession alice Js.Undefined 2000) ∧
   updateSession alice Js.Undefined 2000 soloStore = Threw soloStore []) ∧
  (reachable goneStore ∧
   admissible goneStore (UpdateSession bob (updateData 7 9 "playing") 4000) ∧
   (∃ s, sessions goneStore !! party = Some s ∧ alice ∈ userIds s) ∧
   users goneStore !! alice = None ∧
   ∃ st',
     updateSession bob (updateData 7 9 "playing") 4000 goneStore =
       Threw st' [Ack MNothing] ∧
     st' ≠ goneStore).
Proof.
  split; [|split].
  - split; [apply reachable_lobbyStore|]. split; [admissible_trace | done].
  - split; [apply reachable_soloStore|]. split; [admissible_trace | done].
  - split; [apply reachable_goneStore|]. split; [admissible_trace|].
    split; [eexists; split; [reflexivity | apply list_elem_of_here]|].
    split; [done|].
    eexists. split; [reflexivity|].
    intros Heq.
    apply (f_equal (λ st, lastKnownTime <$> sessions st !! party)) in Heq.
    vm_compute in Heq. discriminate Heq.
Qed.

(** C8.  The legacy [POST /sessions/create] tests that [videoId] is an
    integer but not that it is non-negative, as [createSession] and
    [reboot] do: a body with [videoId] = -1 is answered 200 and the session
    is stored, so a reachable store holds a negative [videoId]. *)
Theorem httpCreate_accepts_negative_videoId :
  reachable negativeStore ∧
  httpCreate (Js.Object [("videoId", int (-1))]) party 1000 emptyStore =
    Returned negativeStore
      [Http 200 (Json (mkSession party (Js.DateAt 1000) (Js.Int 0)
                         (Js.DateAt 1000) "paused" [] (Js.Int (-1))))] ∧
  ¬ videoIdsNonNegative negativeStore ∧
  createSession alice (int (-1)) party 1000 lobbyStore =
    Returned lobbyStore [Ack (MError "Invalid video ID.")].
Proof.
  split; [apply reachable_negativeStore|]. split; [reflexivity|]. split.
  - intros Hv. destruct (Hv party _ eq_refl) as (z & Hz & Hz0).
    simpl in Hz. injection Hz as <-. lia.
  - reflexivity.
Qed.

(** * Further properties *)

Lemma reachable_waitingStore : reachable waitingStore.
Proof. apply reachable_run; [constructor | admissible_trace | done]. Qed.

(** ** makeId *)

Lemma removeHyphens_app x y :
  removeHyphens (x +:+ y) = removeHyphens x +:+ removeHyphens y.
Proof.
  induction x as [|c x IH]; simpl; [done|].
  destruct (Ascii.eqb c "-"); simpl; by rewrite IH.
Qed.

Lemma removeHyphens_free x : hyphenFree x = true → removeHyphens x = x.
Proof.
  induction x as [|c x IH]; simpl; [done|].
  destruct (Ascii.eqb c "-"); simpl; [done|]. intros H. by rewrite IH.
Qed.

Lemma substr_app x y n :
  substr (String.length x + n) (x +:+ y) = substr n y.
Proof. induction x as [|c x IH]; simpl; [done|]. apply IH. Qed.

Lemma length_app_string x y :
  String.length (x +:+ y) = (String.length x + String.length y)%nat.
Proof. induction x as [|c x IH]; simpl; [done|]. by rewrite IH. Qed.

Lemma append_empty_l x : "" +:+ x = x.
Proof. reflexivity. Qed.

(** X1.  [uuid.v4()] returns five groups of 8, 4, 4, 4 and 12 characters
    joined by hyphens; for such a string [makeId] is the last two groups put
    together, 16 characters: the length [reboot] asks of a session id. *)
Theorem makeId_canonical a b c d e :
  String.length a = 8%nat → String.length b = 4%nat →
  String.length c = 4%nat → String.length d = 4%nat →
  String.length e = 12%nat →
  hyphenFree a = true → hyphenFree b = true → hyphenFree c = true →
  hyphenFree d = true → hyphenFree e = true →
  makeId (a +:+ "-" +:+ b +:+ "-" +:+ c +:+ "-" +:+ d +:+ "-" +:+ e) = d +:+ e ∧
  String.length
    (makeId (a +:+ "-" +:+ b +:+ "-" +:+ c +:+ "-" +:+ d +:+ "-" +:+ e))
  = 16%nat.
Proof.
  intros La Lb Lc Ld Le Ha Hb Hc Hd He.
  assert (Hid :
    makeId (a +:+ "-" +:+ b +:+ "-" +:+ c +:+ "-" +:+ d +:+ "-" +:+ e)
    = d +:+ e).
  { unfold makeId. rewrite !removeHyphens_app.
    change (removeHyphens "-") with "".
    rewrite !removeHyphens_free, !append_empty_l by done.
    replace 16%nat with (String.length a + (String.length b +
      (String.length c + 0)))%nat by (rewrite La, Lb, Lc; done).
    by rewrite !substr_app. }
  split; [done|]. rewrite Hid, length_app_string, Ld, Le. done.
Qed.

Lemma makeId_canonical_witness :
  makeId uuidExample = "8393c866d813b8d1" ∧
  String.length (makeId uuidExample) = 16%nat.
Proof.
  exact (makeId_canonical "110ec58a" "a0f2" "4ac4" "8393" "c866d813b8d1"
           eq_refl eq_refl eq_refl eq_refl eq_refl
           eq_refl eq_refl eq_refl eq_refl eq_refl).
Defined.

(** ** What the stores of a running server look like *)

Lemma notInt_false x : notInt x = false → ∃ z, x = Js.Number (Js.Int z).
Proof.
  unfold notInt. destruct x as [| | |[z| | |]| | |]; simpl; try discriminate.
  eauto.
Qed.

Lemma notNonNegInt_num x :
  notNonNegInt x = false → ∃ z, Js.num x = Js.Int z ∧ 0 ≤ z.
Proof.
  intros H. apply notNonNegInt_false in H as (z & -> & Hz). eauto.
Qed.

Lemma goodSessions_insert (m : gmap string Session) k s :
  (∀ sid s', m !! sid = Some s' → goodSession sid s') → goodSession k s →
  ∀ sid s', <[k := s]> m !! sid = Some s' → goodSession sid s'.
Proof.
  intros Hm Hs sid s' Hl.
  apply lookup_insert_Some in Hl as [[<- <-]|[_ Hl]]; eauto.
Qed.

Lemma goodSessions_delete (m : gmap string Session) k :
  (∀ sid s', m !! sid = Some s' → goodSession sid s') →
  ∀ sid s', delete k m !! sid = Some s' → goodSession sid s'.
Proof. intros Hm sid s' Hl. apply lookup_delete_Some in Hl as [_ Hl]. eauto. Qed.

Lemma goodUsers_insert (reg : gmap string User) k usr :
  (∀ u user, reg !! u = Some user → user_id user = u) → user_id usr = k →
  ∀ u user, <[k := usr]> reg !! u = Some user → user_id user = u.
Proof.
  intros Hm Hs u user Hl.
  apply lookup_insert_Some in Hl as [[<- <-]|[_ Hl]]; eauto.
Qed.

Lemma goodUsers_delete (reg : gmap string User) k :
  (∀ u user, reg !! u = Some user → user_id user = u) →
  ∀ u user, delete k reg !! u = Some user → user_id user = u.
Proof. intros Hm u user Hl. apply lookup_delete_Some in Hl as [_ Hl]. eauto. Qed.

Lemma goodSession_setUserIds sid s ids :
  goodSession sid s → goodSession sid (setUserIds ids s).
Proof. intros H. exact H. Qed.

Lemma wellFormed_depart st u user sid s :
  wellFormed st → users st !! u = Some user → sessions st !! sid = Some s →
  wellFormed (depart u user sid s st).
Proof.
  intros [Hs Hu] Hlu Hls. unfold depart.
  assert (Hg : goodSession sid (setUserIds (pull (userIds s) u) s))
    by (apply goodSession_setUserIds; eauto).
  assert (Hk : user_id (setSessionId None user) = u) by (simpl; eauto).
  destruct (length _ =? 0)%nat; split; simpl.
  - apply goodSessions_delete. by apply goodSessions_insert.
  - by apply goodUsers_insert.
  - by apply goodSessions_insert.
  - by apply goodUsers_insert.
Qed.

Ltac good_session :=
  repeat split; simpl; eauto using notNonNegInt_num;
  try (eexists; split; [reflexivity | lia]).

Lemma handle_wellFormed e st st' out :
  wellFormed st → handle e st = Returned st' out → wellFormed st'.
Proof.
  intros Hw He. pose proof Hw as [Hs Hu]. destruct e; simpl in He.
  - unfold httpCreate in He. repeat case_match; simplify_eq; try done.
    split; simpl; [|done]. apply goodSessions_insert; [done|].
    match goal with H : notInt _ = false |- _ =>
      apply notInt_false in H as [z Hz]; rewrite Hz end.
    good_session.
  - unfold httpUpdate in He. repeat case_match; simplify_eq; try done.
    split; simpl; [|done]. apply goodSessions_insert; [done|].
    match goal with H : sessions st !! _ = Some _ |- _ =>
      destruct (Hs _ _ H) as (Hid & _ & _ & Hv) end.
    match goal with H : playState _ = Some _ |- _ =>
      apply playState_Some in H as [_ Hp] end.
    match goal with H : notInt _ = false |- _ =>
      apply notInt_false in H as [z Hz]; rewrite Hz in * end.
    simpl in *. repeat split; simpl; eauto.
    exists z. split; [done|]. destruct (Z.ltb_spec z 0); [done | lia].
  - unfold httpGet in He. repeat case_match; simplify_eq; try done.
    split; simpl; [|done]. apply goodSessions_insert; [done|].
    match goal with H : sessions st !! _ = Some _ |- _ =>
      destruct (Hs _ _ H) as (Hid & Hp & Ht & Hv) end.
    repeat split; simpl; eauto.
  - unfold connection in He. simplify_eq.
    split; simpl; [done|]. by apply goodUsers_insert.
  - unfold reboot, logged in He. repeat case_match; simplify_eq; try done.
    + split; simpl.
      * apply goodSessions_insert; [done|]. apply goodSession_setUserIds. eauto.
      * apply goodUsers_insert; [done|]. simpl. eauto.
    + split; simpl.
      * apply goodSessions_insert; [done|].
        match goal with H : playState _ = Some _ |- _ =>
          apply playState_Some in H as [_ Hp] end.
        repeat split; simpl; eauto using notNonNegInt_num.
        match goal with H : notNonNegInt (Js.assoc "videoId" _) = false |- _ =>
          apply notNonNegInt_num in H as (z & -> & _) end. eauto.
      * apply goodUsers_insert; [done|]. simpl. eauto.
  - unfold createSession, logged in He. repeat case_match; simplify_eq; try done.
    split; simpl.
    + apply goodSessions_insert; [done|].
      match goal with H : notNonNegInt _ = false |- _ =>
        apply notNonNegInt_num in H as (z & -> & _) end.
      good_session.
    + apply goodUsers_insert; [done|]. simpl. eauto.
  - unfold joinSession, logged in He. repeat case_match; simplify_eq; try done.
    split; simpl.
    + apply goodSessions_insert; [done|]. apply goodSession_setUserIds. eauto.
    + apply goodUsers_insert; [done|]. simpl. eauto.
  - unfold leaveSession in He. repeat case_match; simplify_eq; try done.
    by apply wellFormed_depart.
  - unfold updateSession, logged in He. repeat case_match; simplify_eq; try done.
    split; simpl; [|done]. apply goodSessions_insert; [done|].
    match goal with H : sessions st !! _ = Some _ |- _ =>
      destruct (Hs _ _ H) as (Hid & _ & _ & Hv) end.
    match goal with H : playState _ = Some _ |- _ =>
      apply playState_Some in H as [_ Hp] end.
    repeat split; simpl; eauto using notNonNegInt_num.
  - unfold ping in He. by simplify_eq.
  - unfold disconnect in He. repeat case_match; simplify_eq; try done.
    + match goal with Hu' : users st !! _ = Some _, Hs' : sessions st !! _ = Some _ |- _ =>
        destruct (wellFormed_depart st _ _ _ _ Hw Hu' Hs') as [Hs1 Hu1] end.
      split; simpl; [done|]. by apply goodUsers_delete.
    + split; simpl; [done|]. by apply goodUsers_delete.
  - injection He as <- _. split; simpl; [|done].
    intros sid s Hl. rewrite deleteAll_lookup in Hl.
    destruct (decide _); [done|]. eauto.
Qed.

(** X2.  In every reachable store each session is filed under its own
    [id], its [state] is 'playing' or 'paused', its [lastKnownTime] is a
    non-negative integer and its [videoId] an integer; each user is filed
    under its own [id]. *)
Theorem reachable_wellFormed st :
  reachable st →
  (∀ sid s, sessions st !! sid = Some s →
     session_id s = sid ∧
     (state s = "playing" ∨ state s = "paused") ∧
     (∃ z, lastKnownTime s = Js.Int z ∧ 0 ≤ z) ∧
     (∃ z, videoId s = Js.Int z)) ∧
  (∀ u user, users st !! u = Some user → user_id user = u).
Proof.
  induction 1 as [|st e st' out _ IH _ He].
  - split; intros k x Hk; simpl in Hk; by rewrite lookup_empty in Hk.
  - exact (handle_wellFormed e st st' out IH He).
Qed.

Lemma reachable_wellFormed_witness : reachable pairStore ∧ wellFormed pairStore.
Proof.
  exact (conj reachable_pairStore
           (reachable_wellFormed pairStore reachable_pairStore)).
Defined.

(** X3.  In every reachable store a user's [sessionId] names a session of
    the store that lists the user, so that session has a member. *)
Theorem sessionId_names_listing_session st u user sid :
  reachable st → users st !! u = Some user → sessionId user = Some sid →
  ∃ s, sessions st !! sid = Some s ∧ u ∈ userIds s ∧ userIds s ≠ [].
Proof.
  intros Hr Hu Hsid.
  destruct (reachable_linked st Hr u user sid Hu Hsid) as (s & Hs & Hin).
  exists s. repeat split; [done..|]. intros Hnil. rewrite Hnil in Hin.
  by apply elem_of_nil in Hin.
Qed.

Lemma sessionId_names_listing_session_witness :
  reachable pairStore ∧
  ∃ s, sessions pairStore !! party = Some s ∧ alice ∈ userIds s ∧
       userIds s ≠ [].
Proof.
  exact (conj reachable_pairStore
           (sessionId_names_listing_session pairStore alice
              (mkUser alice (Some party)) party reachable_pairStore
              eq_refl eq_refl)).
Defined.

(** ** Where a handler can throw *)


Lemma sendUpdates_stops registry u m ids out :
  sendUpdates registry u m ids = (out, false) →
  ∃ v, v ∈ ids ∧ v ≠ u ∧ registry !! v = None.
Proof.
  revert out. induction ids as [|id ids IH]; intros out; simpl; [done|].
  destruct (decide (id ≠ u)) as [Hne|Heq].
  - destruct (registry !! id) eqn:Hid.
    + destruct (sendUpdates registry u m ids) as [out' ok] eqn:E.
      intros [= <- ->]. destruct (IH out' eq_refl) as (v & Hv & Hvu & Hreg).
      exists v. split; [by right | done].
    + intros _. exists id. split; [by left | done].
  - intros H. destruct (IH out H) as (v & Hv & Hvu & Hreg).
    exists v. split; [by right | done].
Qed.



(** ** Round trips *)

Lemma pull_absent ids u : u ∉ ids → pull ids u = ids.
Proof.
  intros Hu. unfold pull. induction ids as [|x ids IH]; [done|].
  rewrite filter_cons. apply not_elem_of_cons in Hu as [Hne Hu].
  rewrite decide_True by done. by rewrite IH.
Qed.

Lemma pull_app_self ids u : u ∉ ids → pull (ids ++ [u]) u = ids.
Proof.
  intros Hu. unfold pull. rewrite filter_app.
  fold (pull ids u). rewrite (pull_absent ids u Hu).
  rewrite filter_cons, decide_False by (intros H; by apply H).
  by rewrite filter_nil, app_nil_r.
Qed.

(** X5.  A connection under an id not in use registers the user with no
    session and leaves the sessions alone; the disconnect of that user
    gives back the store as it was. *)
Theorem connection_disconnect_round_trip st newId :
  users st !! newId = None →
  ∃ st1 out,
    connection newId st = Returned st1 out ∧
    users st1 !! newId = Some (mkUser newId None) ∧
    sessions st1 = sessions st ∧
    disconnect newId st1 = Returned st [].
Proof.
  intros Hfresh. eexists _, _. split; [reflexivity|]. simpl.
  split; [by rewrite lookup_insert_eq|]. split; [done|].
  unfold disconnect. simpl. rewrite lookup_insert_eq. simpl.
  rewrite delete_insert_id by done. by destruct st.
Qed.

Lemma connection_disconnect_round_trip_witness :
  users emptyStore !! alice = None ∧
  ∃ st1 out,
    connection alice emptyStore = Returned st1 out ∧
    users st1 !! alice = Some (mkUser alice None) ∧
    sessions st1 = sessions emptyStore ∧
    disconnect alice st1 = Returned emptyStore [].
Proof.
  exact (conj eq_refl
           (connection_disconnect_round_trip emptyStore alice eq_refl)).
Defined.

(** X6.  A user in no session who creates a session under an id not in
    use and then leaves it finds the store as it was: the session is
    deleted at once.  Disconnecting instead deletes the session and the
    user. *)
Theorem createSession_leaveSession_round_trip st u user z newId now :
  users st !! u = Some user → sessionId user = None →
  sessions st !! newId = None → 0 ≤ z →
  ∃ st1 out,
    createSession u (Js.Number (Js.Int z)) newId now st = Returned st1 out ∧
    leaveSession u st1 = Returned st [Ack MNull] ∧
    disconnect u st1 =
      Returned (mkStore (sessions st) (delete u (users st))) [].
Proof.
  intros Hu Hsid Hfresh Hz. unfold createSession.
  rewrite (notNonNegInt_int z Hz), Hu. eexists _, _. split; [reflexivity|].
  assert (Hpull : pull [u] u = []).
  { unfold pull. by rewrite filter_cons, decide_False by (intros H; by apply H). }
  assert (Huser : setSessionId None (setSessionId (Some newId) user) = user).
  { destruct user as [uid sid]. simpl in Hsid. by subst. }
  split.
  - unfold leaveSession. simpl. rewrite !lookup_insert_eq. simpl.
    rewrite lookup_insert_eq. unfold depart. simpl. rewrite Hpull. simpl.
    rewrite Huser, (insert_insert_eq (sessions st)).
    rewrite (delete_insert_id (sessions st)) by done.
    rewrite (insert_insert_eq (users st)), (insert_id (users st)) by done.
    by destruct st.
  - unfold disconnect. simpl. rewrite !lookup_insert_eq. simpl.
    rewrite lookup_insert_eq. unfold depart. simpl. rewrite Hpull. simpl.
    rewrite (insert_insert_eq (sessions st)).
    rewrite (delete_insert_id (sessions st)) by done.
    by rewrite (insert_insert_eq (users st)), (delete_insert_eq (users st)).
Qed.

Lemma createSession_leaveSession_round_trip_witness :
  users lobbyStore !! alice = Some (mkUser alice None) ∧
  sessions lobbyStore !! party = None ∧ 0 ≤ 42 ∧
  ∃ st1 out,
    createSession alice (Js.Number (Js.Int 42)) party 1000 lobbyStore =
      Returned st1 out ∧
    leaveSession alice st1 = Returned lobbyStore [Ack MNull] ∧
    disconnect alice st1 =
      Returned (mkStore (sessions lobbyStore) (delete alice (users lobbyStore)))
        [].
Proof.
  assert (Hz : 0 ≤ 42) by lia.
  exact (conj eq_refl (conj eq_refl (conj Hz
    (createSession_leaveSession_round_trip lobbyStore alice
       (mkUser alice None) 42 party 1000 eq_refl eq_refl eq_refl Hz)))).
Defined.

(** X7.  A user in no session who joins a session that does not list it
    and then leaves finds the store as it was when the session had a
    member; when it had none (a session of the legacy API) the leave
    deletes the session. *)
Theorem joinSession_leaveSession_round_trip st u user sid s :
  users st !! u = Some user → sessionId user = None →
  sessions st !! sid = Some s → u ∉ userIds s →
  ∃ st1 out,
    joinSession u (Js.Str sid) st = Returned st1 out ∧
    (userIds s ≠ [] → leaveSession u st1 = Returned st [Ack MNull]) ∧
    (userIds s = [] →
     leaveSession u st1 =
       Returned (mkStore (delete sid (sessions st)) (users st)) [Ack MNull]).
Proof.
  intros Hu Hsid Hs Hnot. unfold joinSession. rewrite Hs, Hu, Hsid.
  eexists _, _. split; [reflexivity|].
  assert (Huser : setSessionId None (setSessionId (Some sid) user) = user).
  { destruct user as [uid sid0]. simpl in Hsid. by subst. }
  assert (Hsess : setUserIds (userIds s) s = s) by (by destruct s).
  unfold leaveSession. simpl. rewrite !lookup_insert_eq. simpl.
  rewrite lookup_insert_eq. unfold depart. simpl.
  rewrite (pull_app_self _ _ Hnot), Huser, (insert_insert_eq (sessions st)).
  rewrite (insert_insert_eq (users st)), (insert_id (users st)) by done.
  split; intros Hl.
  - assert (Hlen : (length (userIds s) =? 0)%nat = false).
    { apply Nat.eqb_neq. by destruct (userIds s). }
    rewrite Hlen.
    change (setUserIds (userIds s) (setUserIds (userIds s ++ [u]) s))
      with (setUserIds (userIds s) s).
    rewrite Hsess, (insert_id (sessions st)) by done. by destruct st.
  - rewrite Hl. simpl. by rewrite (delete_insert_eq (sessions st)).
Qed.

Lemma joinSession_leaveSession_round_trip_witness :
  users waitingStore !! carol = Some (mkUser carol None) ∧
  sessions waitingStore !! party = Some pairSession ∧
  (carol ∉ userIds pairSession) ∧
  ∃ st1 out,
    joinSession carol (Js.Str party) waitingStore = Returned st1 out ∧
    (userIds pairSession ≠ [] →
     leaveSession carol st1 = Returned waitingStore [Ack MNull]) ∧
    (userIds pairSession = [] →
     leaveSession carol st1 =
       Returned (mkStore (delete party (sessions waitingStore))
                   (users waitingStore)) [Ack MNull]).
Proof.
  assert (Hnot : carol ∉ userIds pairSession).
  { intros H. simpl in H.
    repeat (apply elem_of_cons in H as [H|H]; [discriminate H|]).
    by apply elem_of_nil in H. }
  exact (conj eq_refl (conj eq_refl (conj Hnot
    (joinSession_leaveSession_round_trip waitingStore carol
       (mkUser carol None) party pairSession eq_refl eq_refl eq_refl Hnot)))).
Defined.

(** ** The legacy read and the vacuum *)

(** X8.  [GET /sessions/:id] of a stored session answers 200 with the
    record, writes nothing but its [lastActivity], and the session then
    survives every vacuum run within the next hour, members or not. *)
Theorem httpGet_keeps_alive st id s now now' :
  sessions st !! id = Some s → now' ≤ now + 3600000 →
  let s' :=
    mkSession (session_id s) (Js.DateAt now) (lastKnownTime s)
      (lastKnownTimeUpdatedAt s) (state s) (userIds s) (videoId s) in
  ∃ st1,
    httpGet id now st = Returned st1 [Http 200 (Json s')] ∧
    users st1 = users st ∧
    (∀ k, k ≠ id → sessions st1 !! k = sessions st !! k) ∧
    sessions st1 !! id = Some s' ∧
    sessions (finalStore (vacuum now' st1)) !! id = Some s'.
Proof.
  intros Hs Hnow s'. unfold httpGet. rewrite Hs. eexists.
  split; [reflexivity|]. simpl. split; [done|]. split; [|split].
  - intros k Hk. by rewrite lookup_insert_ne.
  - by rewrite lookup_insert_eq.
  - pose proof (vacuum_lookup now'
      (mkStore (<[id := s']> (sessions st)) (users st)) id) as Hv.
    simpl in Hv. rewrite lookup_insert_eq in Hv.
    assert (Hold : old now' s' = false).
    { unfold old. simpl. change (1000 * 60 * 60) with 3600000.
      destruct (Z.abs (now + 3600000) <=? Js.maxTime); simpl; [|done].
      destruct (Z.ltb_spec (now + 3600000) now'); [lia | done]. }
    by rewrite Hold in Hv.
Qed.

Lemma httpGet_keeps_alive_witness :
  3605000 ≤ 5000 + 3600000 ∧
  ∃ st1,
    httpGet party 5000 legacyStore =
      Returned st1
        [Http 200 (Json (mkSession party (Js.DateAt 5000) (Js.Int 0)
                           (Js.DateAt 1000) "paused" [] (Js.Int 42)))] ∧
    users st1 = users legacyStore ∧
    (∀ k, k ≠ party → sessions st1 !! k = sessions legacyStore !! k) ∧
    sessions st1 !! party =
      Some (mkSession party (Js.DateAt 5000) (Js.Int 0) (Js.DateAt 1000)
              "paused" [] (Js.Int 42)) ∧
    sessions (finalStore (vacuum 3605000 st1)) !! party =
      Some (mkSession party (Js.DateAt 5000) (Js.Int 0) (Js.DateAt 1000)
              "paused" [] (Js.Int 42)).
Proof.
  assert (Hnow : 3605000 ≤ 5000 + 3600000) by lia.
  exact (conj Hnow
    (httpGet_keeps_alive legacyStore party
       (mkSession party (Js.DateAt 1000) (Js.Int 0) (Js.DateAt 1000)
          "paused" [] (Js.Int 42))
       5000 3605000 eq_refl Hnow)).
Defined.

Lemma httpGet_unknown st id now :
  sessions st !! id = None →
  httpGet id now st =
  Returned st [Http 404 (Text ("Unknown session id: " +:+ id))].
Proof. intros Hs. unfold httpGet. by rewrite Hs. Qed.

(** X9.  Whatever the clock and the dates stored, the vacuum only deletes:
    it leaves the users alone, what it keeps it keeps unchanged, it keeps
    every session that lists an id, and so it keeps every user's
    [sessionId] pointing at a session that lists the user. *)
Theorem vacuum_spares_sessions_with_members now st :
  ∃ st',
    vacuum now st = Returned st' [] ∧
    users st' = users st ∧
    (∀ sid s', sessions st' !! sid = Some s' → sessions st !! sid = Some s') ∧
    (∀ sid s, sessions st !! sid = Some s → userIds s ≠ [] →
       sessions st' !! sid = Some s) ∧
    (linked st → linked st').
Proof.
  eexists. split; [reflexivity|]. split; [done|]. split; [|split].
  - intros sid s' Hs'. pose proof (vacuum_lookup now st sid) as Hv.
    simpl in Hv, Hs'. rewrite Hs' in Hv.
    destruct (sessions st !! sid) as [s|]; [|done].
    destruct (old now s); [done|]. congruence.
  - intros sid s Hs Hne. pose proof (vacuum_lookup now st sid) as Hv.
    simpl in Hv |- *. rewrite Hv, Hs. unfold old.
    destruct (userIds s); [done|]. simpl. by rewrite andb_false_r.
  - apply linked_vacuum.
Qed.

(** ** What an event leaves alone *)

Lemma sameParty_refl s : sameParty s s.
Proof. by repeat split. Qed.

(** X10.  The two updates, the legacy read and the ping never create or
    delete a session and never change a session's [id], [userIds] or
    [videoId], nor the users, whatever their input and even when
    [updateSession] throws. *)
Theorem refreshing_keeps_parties e st :
  refreshing e →
  users (finalStore (handle e st)) = users st ∧
  ∀ sid,
    match sessions st !! sid, sessions (finalStore (handle e st)) !! sid with
    | Some s, Some s' => sameParty s s'
    | None, None => True
    | _, _ => False
    end.
Proof.
  assert (Hsame : ∀ sid, match sessions st !! sid, sessions st !! sid with
                         | Some s, Some s' => sameParty s s'
                         | None, None => True
                         | _, _ => False
                         end).
  { intros sid. destruct (sessions st !! sid); [apply sameParty_refl | done]. }
  assert (Hins : ∀ k s s', sessions st !! k = Some s → sameParty s s' →
    ∀ sid, match sessions st !! sid, <[k := s']> (sessions st) !! sid with
           | Some s, Some s' => sameParty s s'
           | None, None => True
           | _, _ => False
           end).
  { intros k s s' Hk Hp sid. destruct (decide (k = sid)) as [<-|Hne].
    - by rewrite lookup_insert_eq, Hk.
    - rewrite lookup_insert_ne by done. apply Hsame. }
  intros He. destruct e; simpl in He; try done; simpl.
  - unfold httpUpdate. repeat case_match; simpl; try done.
    split; [done|]. eapply Hins; [done|]. by repeat split.
  - unfold httpGet. repeat case_match; simpl; try done.
    split; [done|]. eapply Hins; [done|]. by repeat split.
  - unfold updateSession, logged. repeat case_match; simpl; try done.
    all: split; [done|]; eapply Hins; [done|]; by repeat split.
Qed.

Lemma refreshing_keeps_parties_witness :
  refreshing (UpdateSession alice (updateData 7 9 "playing") 4000) ∧
  users (finalStore
           (handle (UpdateSession alice (updateData 7 9 "playing") 4000)
              pairStore)) = users pairStore.
Proof.
  exact (conj I
    (proj1 (refreshing_keeps_parties
              (UpdateSession alice (updateData 7 9 "playing") 4000)
              pairStore I))).
Defined.

(** X11.  Only a connection adds a user and only a disconnect removes
    one: every other event that returns leaves the set of registered ids
    as it was, a connection adds its id with no session, and a disconnect
    removes its own id and touches no other user. *)
Theorem registry_changes_only_by_connection e st st' out :
  handle e st = Returned st' out →
  match e with
  | Connection newId => users st' = <[newId := mkUser newId None]> (users st)
  | Disconnect u =>
      dom (users st') = dom (users st) ∖ {[u]} ∧
      ∀ v, v ≠ u → users st' !! v = users st !! v
  | _ => dom (users st') = dom (users st)
  end.
Proof.
  assert (Hdom : ∀ u user x, users st !! u = Some user →
                 dom (<[u := x]> (users st)) = dom (users st)).
  { intros u user x Hu. rewrite dom_insert_L.
    apply elem_of_dom_2 in Hu. apply subseteq_union_1_L. by apply singleton_subseteq_l. }
  intros He. destruct e; simpl in He.
  - unfold httpCreate in He. repeat case_match; by simplify_eq.
  - unfold httpUpdate in He. repeat case_match; by simplify_eq.
  - unfold httpGet in He. repeat case_match; by simplify_eq.
  - unfold connection in He. by simplify_eq.
  - unfold reboot, logged in He. repeat case_match; simplify_eq; try done.
    all: simpl; eauto.
  - unfold createSession, logged in He. repeat case_match; simplify_eq; try done.
    simpl; eauto.
  - unfold joinSession, logged in He. repeat case_match; simplify_eq; try done.
    simpl; eauto.
  - unfold leaveSession in He. repeat case_match; simplify_eq; try done.
    unfold depart. case_match; simpl; eauto.
  - unfold updateSession, logged in He. repeat case_match; by simplify_eq.
  - unfold ping in He. by simplify_eq.
  - unfold disconnect in He. repeat case_match; simplify_eq; simpl.
    + unfold depart. case_match; simpl.
      all: rewrite (delete_insert_eq (users st)).
      all: split; [by rewrite dom_delete_L|].
      all: intros v Hv; by rewrite lookup_delete_ne.
    + split; [by rewrite dom_delete_L|].
      intros v Hv. by rewrite lookup_delete_ne.
  - unfold vacuum in He. by simplify_eq.
Qed.

Lemma registry_changes_only_by_connection_witness :
  handle (LeaveSession alice) pairStore =
    Returned (finalStore (handle (LeaveSession alice) pairStore))
      [Ack MNull] ∧
  dom (users (finalStore (handle (LeaveSession alice) pairStore))) =
    dom (users pairStore).
Proof.
  exact (conj eq_refl
    (registry_changes_only_by_connection (LeaveSession alice) pairStore
       (finalStore (handle (LeaveSession alice) pairStore)) [Ack MNull]
       eq_refl)).
Defined.

(** ** Updates in sequence *)

Lemma updateSession_returned st u user sid s data d t e p now st' out :
  users st !! u = Some user → sessionId user = Some sid →
  sessions st !! sid = Some s →
  Js.fields data = Some d → playback d t e p →
  updateSession u data now st = Returned st' out →
  st' =
  mkStore
    (<[sid := mkSession (session_id s) (Js.DateAt now) (Js.Int t)
                (Js.newDate (Js.Int e)) p (userIds s) (videoId s)]>
       (sessions st))
    (users st).
Proof.
  intros Hu Hsid Hs Hd Hp.
  rewrite (updateSession_valid st u user sid s data d t e p now) by done.
  simpl. destruct (sendUpdates _ _ _ _).2; by intros [= <- _].
Qed.

(** X12.  The last writer wins: after a valid update of a session that
    returned, a second valid update of the same session stores its own
    three values whatever the first stored; epochs are not compared. *)
Theorem last_update_wins st u1 user1 u2 user2 sid s data1 d1 t1 e1 p1 now1
    data2 d2 t2 e2 p2 now2 st1 out1 :
  users st !! u1 = Some user1 → sessionId user1 = Some sid →
  users st !! u2 = Some user2 → sessionId user2 = Some sid →
  sessions st !! sid = Some s →
  Js.fields data1 = Some d1 → playback d1 t1 e1 p1 →
  Js.fields data2 = Some d2 → playback d2 t2 e2 p2 →
  updateSession u1 data1 now1 st = Returned st1 out1 →
  sessions (finalStore (updateSession u2 data2 now2 st1)) !! sid =
  Some (mkSession (session_id s) (Js.DateAt now2) (Js.Int t2)
          (Js.newDate (Js.Int e2)) p2 (userIds s) (videoId s)).
Proof.
  intros Hu1 Hs1 Hu2 Hs2 Hs Hd1 Hp1 Hd2 Hp2 H1.
  rewrite (updateSession_returned _ _ _ _ _ _ _ _ _ _ _ _ _
             Hu1 Hs1 Hs Hd1 Hp1 H1).
  set (s1 := mkSession (session_id s) (Js.DateAt now1) (Js.Int t1)
                (Js.newDate (Js.Int e1)) p1 (userIds s) (videoId s)).
  assert (Hl : sessions (mkStore (<[sid := s1]> (sessions st)) (users st))
               !! sid = Some s1) by (simpl; by rewrite lookup_insert_eq).
  by rewrite (updateSession_stores_epoch
                (mkStore (<[sid := s1]> (sessions st)) (users st))
                u2 user2 sid s1 data2 d2 t2 e2 p2 now2 Hu2 Hs2 Hl Hd2 Hp2).
Qed.

Lemma last_update_wins_witness :
  updateSession alice (updateData 7 9 "playing") 4000 pairStore =
    Returned
      (finalStore (updateSession alice (updateData 7 9 "playing") 4000 pairStore))
      [Ack MNothing; Emit bob "update" (MState (Js.Int 7) (Js.Int 9) "playing")] ∧
  sessions
    (finalStore
       (updateSession bob (updateData 3 2 "paused") 5000
          (finalStore
             (updateSession alice (updateData 7 9 "playing") 4000 pairStore))))
    !! party =
  Some (mkSession party (Js.DateAt 5000) (Js.Int 3) (Js.newDate (Js.Int 2))
          "paused" [alice; bob] (Js.Int 42)).
Proof.
  assert (H1 : playback
            [("lastKnownTime", int 7); ("lastKnownTimeUpdatedAt", int 9);
             ("state", Js.Str "playing")] 7 9 "playing")
    by (apply playback_updateData; [lia | lia | left; reflexivity]).
  assert (H2 : playback
            [("lastKnownTime", int 3); ("lastKnownTimeUpdatedAt", int 2);
             ("state", Js.Str "paused")] 3 2 "paused")
    by (apply playback_updateData; [lia | lia | right; reflexivity]).
  exact (conj eq_refl
    (last_update_wins pairStore alice (mkUser alice (Some party)) bob
       (mkUser bob (Some party)) party pairSession
       (updateData 7 9 "playing") _ 7 9 "playing" 4000
       (updateData 3 2 "paused") _ 3 2 "paused" 5000 _ _
       eq_refl eq_refl eq_refl eq_refl eq_refl eq_refl H1 eq_refl H2 eq_refl)).
Defined.

(** X13.  A user who joins after a valid update that returned is
    acknowledged with the values of that update: the time, the epoch as the
    Date read it back, and the state. *)
Theorem join_after_update_sees_update st u user v userv sid s data d t e p now
    st1 out1 :
  users st !! u = Some user → sessionId user = Some sid →
  sessions st !! sid = Some s →
  Js.fields data = Some d → playback d t e p →
  users st !! v = Some userv → sessionId userv = None →
  updateSession u data now st = Returned st1 out1 →
  effects (joinSession v (Js.Str sid) st1) =
  [Ack (MJoined (videoId s) (Js.Int t) (Js.getTime (Js.newDate (Js.Int e))) p)].
Proof.
  intros Hu Hsid Hs Hd Hp Hv Hvs H1.
  rewrite (updateSession_returned _ _ _ _ _ _ _ _ _ _ _ _ _
             Hu Hsid Hs Hd Hp H1).
  unfold joinSession. simpl. rewrite lookup_insert_eq, Hv, Hvs. done.
Qed.

Lemma join_after_update_sees_update_witness :
  updateSession alice (updateData 7 9 "playing") 4000 waitingStore =
    Returned
      (finalStore
         (updateSession alice (updateData 7 9 "playing") 4000 waitingStore))
      [Ack MNothing; Emit bob "update" (MState (Js.Int 7) (Js.Int 9) "playing")] ∧
  effects
    (joinSession carol (Js.Str party)
       (finalStore
          (updateSession alice (updateData 7 9 "playing") 4000 waitingStore)))
  = [Ack (MJoined (Js.Int 42) (Js.Int 7) (Js.getTime (Js.newDate (Js.Int 9)))
            "playing")].
Proof.
  assert (H1 : playback
            [("lastKnownTime", int 7); ("lastKnownTimeUpdatedAt", int 9);
             ("state", Js.Str "playing")] 7 9 "playing")
    by (apply playback_updateData; [lia | lia | left; reflexivity]).
  exact (conj eq_refl
    (join_after_update_sees_update waitingStore alice
       (mkUser alice (Some party)) carol (mkUser carol None) party pairSession
       (updateData 7 9 "playing") _ 7 9 "playing" 4000 _ _
       eq_refl eq_refl eq_refl eq_refl H1 eq_refl eq_refl eq_refl)).
Defined.

(** ** reboot, again and again *)

Lemma reboot_existing st u user data d sid t e p v s now :
  users st !! u = Some user →
  Js.fields data = Some d →
  Js.assoc "sessionId" d = Js.Str sid → String.length sid = 16%nat →
  playback d t e p →
  Js.assoc "videoId" d = Js.Number (Js.Int v) → 0 ≤ v →
  sessions st !! sid = Some s →
  reboot u data now st =
  Returned
    (mkStore
       (<[sid := setUserIds (userIds s ++ [u]) s]> (sessions st))
       (<[u := mkUser (user_id user) (Some sid)]> (users st)))
    [Ack (MState (lastKnownTime s)
            (Js.getTime (lastKnownTimeUpdatedAt s)) (state s))].
Proof.
  intros Hu Hd Hsid Hlen (Ht & Ht0 & He & He0 & Hp & Hp') Hv Hv0 Hs.
  unfold reboot.
  rewrite Hd, Hsid, Hlen, Ht, He, Hp, Hv. simpl negb. cbv iota.
  rewrite !notNonNegInt_int by done. rewrite (playState_ok p Hp').
  rewrite Hu, Hs. done.
Qed.

(** X14.  [reboot] into a stored session appends the caller on every
    call: after two valid calls the caller is listed twice more, both calls
    are acknowledged alike, and one [leaveSession] removes every occurrence
    of the caller, deleting the session when no other id is left. *)
Theorem reboot_twice_lists_twice st u user data d sid t e p v s now now' :
  users st !! u = Some user →
  Js.fields data = Some d →
  Js.assoc "sessionId" d = Js.Str sid → String.length sid = 16%nat →
  playback d t e p →
  Js.assoc "videoId" d = Js.Number (Js.Int v) → 0 ≤ v →
  sessions st !! sid = Some s →
  ∃ st1 out1 st2 out2,
    reboot u data now st = Returned st1 out1 ∧
    reboot u data now' st1 = Returned st2 out2 ∧
    out2 = out1 ∧
    sessions st2 !! sid = Some (setUserIds (userIds s ++ [u; u]) s) ∧
    ∃ st3,
      leaveSession u st2 = Returned st3 [Ack MNull] ∧
      sessions st3 !! sid =
        if decide (pull (userIds s) u = []) then None
        else Some (setUserIds (pull (userIds s) u) s).
Proof.
  intros Hu Hd Hsid Hlen Hp Hv Hv0 Hs.
  pose proof (reboot_existing st u user data d sid t e p v s now
                Hu Hd Hsid Hlen Hp Hv Hv0 Hs) as H1.
  eexists _, _. eexists _, _. split; [exact H1|].
  split.
  { eapply reboot_existing; try done; simpl.
    - by rewrite lookup_insert_eq.
    - by rewrite lookup_insert_eq. }
  split; [done|]. simpl. split.
  { rewrite lookup_insert_eq. unfold setUserIds. simpl.
    by rewrite <- app_assoc. }
  eexists. split.
  { unfold leaveSession. simpl. rewrite !lookup_insert_eq. simpl.
    rewrite lookup_insert_eq. reflexivity. }
  rewrite depart_lookup, decide_True by done. simpl.
  assert (Hpull : pull ((userIds s ++ [u]) ++ [u]) u = pull (userIds s) u).
  { unfold pull. rewrite !filter_app, !filter_cons, !filter_nil.
    rewrite decide_False by (intros H; by apply H).
    by rewrite !app_nil_r. }
  rewrite Hpull. by destruct (decide (pull (userIds s) u = [])).
Qed.

Lemma reboot_twice_lists_twice_witness :
  sessions pairStore !! party = Some pairSession ∧
  ∃ st1 out1 st2 out2,
    reboot bob (rebootData party 7 9 "playing" 42) 2000 pairStore =
      Returned st1 out1 ∧
    reboot bob (rebootData party 7 9 "playing" 42) 2001 st1 =
      Returned st2 out2 ∧
    out2 = out1 ∧
    sessions st2 !! party =
      Some (setUserIds (userIds pairSession ++ [bob; bob]) pairSession) ∧
    ∃ st3,
      leaveSession bob st2 = Returned st3 [Ack MNull] ∧
      sessions st3 !! party =
        if decide (pull (userIds pairSession) bob = []) then None
        else Some (setUserIds (pull (userIds pairSession) bob) pairSession).
Proof.
  assert (Hpb : playback
            [("sessionId", Js.Str party); ("lastKnownTime", int 7);
             ("lastKnownTimeUpdatedAt", int 9); ("state", Js.Str "playing");
             ("videoId", int 42)] 7 9 "playing")
    by (apply playback_rebootData; [lia | lia | left; reflexivity]).
  assert (Hv : 0 ≤ 42) by lia.
  exact (conj eq_refl
    (reboot_twice_lists_twice pairStore bob (mkUser bob (Some party))
       (rebootData party 7 9 "playing" 42) _ party 7 9 "playing" 42
       pairSession 2000 2001
       eq_refl eq_refl eq_refl eq_refl Hpb eq_refl Hv eq_refl)).
Defined.

(** ** The broadcast of updateSession *)

Lemma sendUpdates_targets registry u m ids :
  Forall (λ ev, ∃ v, ev = Emit v "update" m ∧ v ∈ ids ∧ v ≠ u ∧
                     is_Some (registry !! v))
    (sendUpdates registry u m ids).1.
Proof.
  induction ids as [|id ids IH]; simpl; [constructor|].
  assert (Hweak : Forall (λ ev, ∃ v, ev = Emit v "update" m ∧ v ∈ id :: ids ∧
                     v ≠ u ∧ is_Some (registry !! v))
                    (sendUpdates registry u m ids).1).
  { eapply Forall_impl; [exact IH|]. intros ev (v & -> & Hv & Hne & Hreg).
    exists v. repeat split; [by right | done..]. }
  destruct (decide (id ≠ u)) as [Hne|Heq]; [|done].
  destruct (registry !! id) eqn:Hid; [|constructor].
  destruct (sendUpdates registry u m ids) as [out ok]. simpl in *.
  constructor; [|done]. exists id. repeat split; [by left | done | by eexists].
Qed.

Lemma sendUpdates_completes registry u m ids :
  (sendUpdates registry u m ids).2 = true →
  ∀ v, v ∈ ids → v ≠ u → is_Some (registry !! v).
Proof.
  induction ids as [|id ids IH]; simpl; intros Hok v Hv Hne.
  - by apply elem_of_nil in Hv.
  - destruct (decide (id ≠ u)) as [Hid|Hid].
    + destruct (registry !! id) eqn:Hreg; [|done].
      destruct (sendUpdates registry u m ids) as [out ok]. simpl in *.
      apply elem_of_cons in Hv as [->|Hv]; [by eexists | by apply IH].
    + apply elem_of_cons in Hv as [->|Hv]; [done | by apply IH].
Qed.

(** X15.  A valid [updateSession] throws exactly when the session lists
    another id that is not registered.  Thrown or not, the acknowledgement
    is sent first, every push is an update with the stored values to a
    listed, registered id other than the caller's, and the session is
    overwritten. *)
Theorem updateSession_throws_iff_member_unregistered
    st u user sid s data d t e p now :
  users st !! u = Some user → sessionId user = Some sid →
  sessions st !! sid = Some s →
  Js.fields data = Some d → playback d t e p →
  let m := MState (Js.Int t) (Js.getTime (Js.newDate (Js.Int e))) p in
  (returned (updateSession u data now st) = false ↔
   ∃ v, v ∈ userIds s ∧ v ≠ u ∧ users st !! v = None) ∧
  (∃ pushes,
     effects (updateSession u data now st) = Ack MNothing :: pushes ∧
     Forall (λ ev, ∃ v, ev = Emit v "update" m ∧ v ∈ userIds s ∧ v ≠ u ∧
                        is_Some (users st !! v)) pushes) ∧
  sessions (finalStore (updateSession u data now st)) !! sid =
    Some (mkSession (session_id s) (Js.DateAt now) (Js.Int t)
            (Js.newDate (Js.Int e)) p (userIds s) (videoId s)).
Proof.
  intros Hu Hsid Hs Hd Hp m.
  pose proof (updateSession_valid st u user sid s data d t e p now
                Hu Hsid Hs Hd Hp) as Hv. simpl in Hv.
  pose proof (sendUpdates_targets (users st) u m (userIds s)) as Ht.
  pose proof (sendUpdates_completes (users st) u m (userIds s)) as Hc.
  unfold m in *. clear m. split; [|split].
  - rewrite Hv.
    destruct (sendUpdates (users st) u _ (userIds s)) as [out ok] eqn:E.
    simpl in *. destruct ok; simpl.
    + split; [done|]. intros (v & Hin & Hne & Hnone).
      destruct (Hc eq_refl v Hin Hne) as [x Hx]. congruence.
    + split; [|done]. intros _. by apply (sendUpdates_stops _ _ _ _ _ E).
  - rewrite Hv.
    destruct (sendUpdates (users st) u _ (userIds s)) as [out ok].
    simpl in *. exists out. by destruct ok.
  - exact (updateSession_stores_epoch st u user sid s data d t e p now
             Hu Hsid Hs Hd Hp).
Qed.

Lemma updateSession_throws_iff_member_unregistered_witness :
  users goneStore !! bob = Some (mkUser bob (Some party)) ∧
  sessions goneStore !! party = Some pairSession ∧
  (returned (updateSession bob (updateData 7 9 "playing") 4000 goneStore)
   = false ↔
   ∃ v, v ∈ userIds pairSession ∧ v ≠ bob ∧ users goneStore !! v = None).
Proof.
  assert (H1 : playback
            [("lastKnownTime", int 7); ("lastKnownTimeUpdatedAt", int 9);
             ("state", Js.Str "playing")] 7 9 "playing")
    by (apply playback_updateData; [lia | lia | left; reflexivity]).
  exact (conj eq_refl (conj eq_refl
    (proj1 (updateSession_throws_iff_member_unregistered goneStore bob
              (mkUser bob (Some party)) party pairSession
              (updateData 7 9 "playing") _ 7 9 "playing" 4000
              eq_refl eq_refl eq_refl eq_refl H1)))).
Defined.

(** ** One answer to every call *)

Lemma sendUpdates_pushes registry u m ids :
  Forall (λ ev, ∃ v msg, ev = Emit v "update" msg ∧ v ≠ u)
    (sendUpdates registry u m ids).1.
Proof.
  induction ids as [|id ids IH]; simpl; [constructor|].
  destruct (decide (id ≠ u)) as [Hne|Heq]; [|done].
  destruct (registry !! id); [|constructor].
  destruct (sendUpdates registry u m ids) as [out ok]. simpl in *.
  constructor; [|done]. by exists id, m.
Qed.

(** X16.  A handler that returns has answered once: an HTTP handler with
    one response, a socket call with one acknowledgement, which for
    [updateSession] comes before pushes that are all updates to other
    users; a connection only pushes the new id, and a disconnect and the
    vacuum send nothing. *)
Theorem every_call_is_answered_once e st st' out :
  handle e st = Returned st' out →
  match e with
  | HttpCreate _ _ _ | HttpUpdate _ _ _ | HttpGet _ _ =>
      ∃ status body, out = [Http status body]
  | Connection newId => out = [Emit newId "userId" (MUserId newId)]
  | Disconnect _ | Vacuum _ => out = []
  | UpdateSession u _ _ =>
      ∃ m pushes,
        out = Ack m :: pushes ∧
        Forall (λ ev, ∃ v msg, ev = Emit v "update" msg ∧ v ≠ u) pushes
  | Reboot _ _ _ | CreateSession _ _ _ _ | JoinSession _ _ | LeaveSession _
  | Ping _ _ => ∃ m, out = [Ack m]
  end.
Proof.
  intros He. destruct e; simpl in He.
  - unfold httpCreate in He. repeat case_match; simplify_eq; eauto.
  - unfold httpUpdate in He. repeat case_match; simplify_eq; eauto.
  - unfold httpGet in He. repeat case_match; simplify_eq; eauto.
  - unfold connection in He. by simplify_eq.
  - unfold reboot, logged in He. repeat case_match; simplify_eq; eauto.
  - unfold createSession, logged in He. repeat case_match; simplify_eq; eauto.
  - unfold joinSession, logged in He. repeat case_match; simplify_eq; eauto.
  - unfold leaveSession in He. repeat case_match; simplify_eq; eauto.
  - unfold updateSession, logged in He.
    repeat (case_match; simplify_eq; eauto).
    match goal with H : sendUpdates ?r ?u ?m ?ids = _ |- _ =>
      pose proof (sendUpdates_pushes r u m ids) as Hp; rewrite H in Hp end.
    eauto.
  - unfold ping in He. simplify_eq. eauto.
  - unfold disconnect in He. repeat case_match; by simplify_eq.
  - unfold vacuum in He. by simplify_eq.
Qed.

Lemma every_call_is_answered_once_witness :
  handle (UpdateSession alice (updateData 7 9 "playing") 4000) pairStore =
    Returned
      (finalStore
         (handle (UpdateSession alice (updateData 7 9 "playing") 4000)
            pairStore))
      [Ack MNothing; Emit bob "update" (MState (Js.Int 7) (Js.Int 9) "playing")] ∧
  ∃ m pushes,
    [Ack MNothing; Emit bob "update" (MState (Js.Int 7) (Js.Int 9) "playing")]
    = Ack m :: pushes ∧
    Forall (λ ev, ∃ v msg, ev = Emit v "update" msg ∧ v ≠ alice) pushes.
Proof.
  exact (conj eq_refl
    (every_call_is_answered_once
       (UpdateSession alice (updateData 7 9 "playing") 4000) pairStore _ _
       eq_refl)).
Defined.

(** X17.  A call that is rejected (an error acknowledgement or an HTTP
    status other than 200) has written nothing to the stores and sent
    nothing but that rejection. *)
Theorem rejection_is_the_only_effect e st st' out :
  handle e st = Returned st' out → Exists rejection out →
  st' = st ∧ ∃ ev, out = [ev] ∧ rejection ev.
Proof.
  intros He Hrej. split; [by apply (rejected_unchanged e st st' out)|].
  destruct e; simpl in He.
  - unfold httpCreate in He. repeat case_match; simplify_eq;
      try (eexists; split; [reflexivity | by simpl]). not_rejected Hrej.
  - unfold httpUpdate in He. repeat case_match; simplify_eq;
      try (eexists; split; [reflexivity | by simpl]). not_rejected Hrej.
  - unfold httpGet in He. repeat case_match; simplify_eq;
      try (eexists; split; [reflexivity | by simpl]). not_rejected Hrej.
  - unfold connection in He. simplify_eq. not_rejected Hrej.
  - unfold reboot, logged in He. repeat case_match; simplify_eq;
      try (eexists; split; [reflexivity | by simpl]).
    all: not_rejected Hrej.
  - unfold createSession, logged in He. repeat case_match; simplify_eq;
      try (eexists; split; [reflexivity | by simpl]). not_rejected Hrej.
  - unfold joinSession, logged in He. repeat case_match; simplify_eq;
      try (eexists; split; [reflexivity | by simpl]). not_rejected Hrej.
  - unfold leaveSession in He. repeat case_match; simplify_eq;
      try (eexists; split; [reflexivity | by simpl]). not_rejected Hrej.
  - unfold updateSession, logged in He.
    repeat (case_match; simplify_eq;
            try (eexists; split; [reflexivity | by simpl])).
    match goal with H : sendUpdates ?r ?u ?m ?ids = _ |- _ =>
      pose proof (sendUpdates_no_rejection r u m ids) as Hno;
      rewrite H in Hno end.
    apply Exists_cons in Hrej as [Hrej|Hrej]; done.
  - unfold ping in He. simplify_eq. not_rejected Hrej.
  - unfold disconnect in He. repeat case_match; simplify_eq;
      by apply Exists_nil in Hrej.
  - unfold vacuum in He. simplify_eq. by apply Exists_nil in Hrej.
Qed.

Lemma rejection_is_the_only_effect_witness :
  handle (JoinSession alice (Js.Str party2)) soloStore =
    Returned soloStore [Ack (MError "Invalid session ID.")] ∧
  Exists rejection [Ack (MError "Invalid session ID.")] ∧
  soloStore = soloStore ∧
  ∃ ev, [Ack (MError "Invalid session ID.")] = [ev] ∧ rejection ev.
Proof.
  assert (Hrej : Exists rejection [Ack (MError "Invalid session ID.")])
    by (apply Exists_cons_hd; exact I).
  exact (conj eq_refl (conj Hrej
    (rejection_is_the_only_effect (JoinSession alice (Js.Str party2))
       soloStore soloStore [Ack (MError "Invalid session ID.")]
       eq_refl Hrej))).
Defined.

(** ** Without the legacy create *)

Lemma occupied_insert st k s reg :
  occupied st → userIds s ≠ [] →
  occupied (mkStore (<[k := s]> (sessions st)) reg).
Proof.
  intros Ho Hs sid s' Hl. simpl in Hl.
  apply lookup_insert_Some in Hl as [[_ <-]|[_ Hl]]; eauto.
Qed.

Lemma occupied_depart st u user sid s :
  occupied st → occupied (depart u user sid s st).
Proof.
  intros Ho sid' s' Hl. rewrite depart_lookup in Hl.
  destruct (decide (sid' = sid)); [|eauto].
  destruct (decide (pull (userIds s) u = [])); [done|].
  by injection Hl as <-.
Qed.

Lemma app_singleton_not_nil (ids : list string) (u : string) :
  (ids ++ [u])%list ≠ [].
Proof. by destruct ids. Qed.

Lemma handle_occupied e st st' out :
  occupied st → notLegacyCreate e → handle e st = Returned st' out →
  occupied st'.
Proof.
  intros Ho Hlive He. destruct e; simpl in He, Hlive; try done.
  - unfold httpUpdate in He. repeat case_match; simplify_eq; try done.
    apply occupied_insert; simpl; eauto.
  - unfold httpGet in He. repeat case_match; simplify_eq; try done.
    apply occupied_insert; simpl; eauto.
  - unfold connection in He. simplify_eq. intros k s' Hs. exact (Ho k s' Hs).
  - unfold reboot, logged in He. repeat case_match; simplify_eq; try done.
    + apply occupied_insert; [done|]. simpl. apply app_singleton_not_nil.
    + by apply occupied_insert.
  - unfold createSession, logged in He. repeat case_match; simplify_eq; try done.
    by apply occupied_insert.
  - unfold joinSession, logged in He. repeat case_match; simplify_eq; try done.
    apply occupied_insert; [done|]. simpl. apply app_singleton_not_nil.
  - unfold leaveSession in He. repeat case_match; simplify_eq; try done.
    by apply occupied_depart.
  - unfold updateSession, logged in He. repeat case_match; simplify_eq; try done.
    apply occupied_insert; simpl; eauto.
  - unfold ping in He. by simplify_eq.
  - unfold disconnect in He. repeat case_match; simplify_eq; try done.
    intros k s' Hs. simpl in Hs.
    eapply occupied_depart; [exact Ho | exact Hs].
  - injection He as <- _. intros k s' Hs. simpl in Hs.
    rewrite deleteAll_lookup in Hs. destruct (decide _); [done|]. eauto.
Qed.

Lemma run_occupied es st :
  occupied st → Forall notLegacyCreate es → returned (run es st) = true →
  occupied (finalStore (run es st)).
Proof.
  revert st. induction es as [|e es IH]; intros st Ho Hlive Hret; simpl in *.
  - done.
  - apply Forall_cons in Hlive as [He Hes].
    destruct (handle e st) as [st' out|st' out] eqn:Hh; [|done].
    apply IH; [|done..]. by eapply handle_occupied.
Qed.

Lemma vacuum_occupied now st : occupied st → vacuum now st = Returned st [].
Proof.
  intros Ho. unfold vacuum.
  assert (Hnil : oldSessionIds now st = []).
  { destruct (oldSessionIds now st) as [|k ks] eqn:E; [done|].
    assert (Hin : k ∈ oldSessionIds now st) by (rewrite E; by left).
    apply elem_of_oldSessionIds in Hin as (s & Hs & Hold).
    unfold old in Hold. apply andb_true_iff in Hold as [_ Hlen].
    apply Nat.eqb_eq, length_zero_iff_nil in Hlen. by destruct (Ho k s Hs). }
  rewrite Hnil. simpl. by destruct st.
Qed.

(** X18.  As long as [POST /sessions/create] is not used, no stored
    session is ever without a listed id, and the vacuum deletes nothing,
    whenever it runs. *)
Theorem live_sessions_are_never_empty es now :
  Forall notLegacyCreate es → returned (run es emptyStore) = true →
  let st := finalStore (run es emptyStore) in
  (∀ sid s, sessions st !! sid = Some s → userIds s ≠ []) ∧
  vacuum now st = Returned st [].
Proof.
  intros Hlive Hret st.
  assert (Ho : occupied st).
  { apply run_occupied; [|done..]. intros sid s Hs. simpl in Hs.
    by rewrite lookup_empty in Hs. }
  split; [exact Ho | by apply vacuum_occupied].
Qed.

Lemma live_sessions_are_never_empty_witness :
  Forall notLegacyCreate pairTrace ∧
  (∀ sid s, sessions pairStore !! sid = Some s → userIds s ≠ []) ∧
  vacuum 9000000 pairStore = Returned pairStore [].
Proof.
  assert (Hlive : Forall notLegacyCreate pairTrace)
    by (repeat constructor).
  exact (conj Hlive
    (live_sessions_are_never_empty pairTrace 9000000 Hlive eq_refl)).
Defined.

(** ** The order of the validations of reboot *)

Lemma notNonNegInt_true x : ¬ nonNegInt x → notNonNegInt x = true.
Proof.
  intros H. destruct (notNonNegInt x) eqn:E; [done|].
  by apply notNonNegInt_false in E.
Qed.

Lemma playState_None x :
  ¬ (x = Js.Str "playing" ∨ x = Js.Str "paused") → playState x = None.
Proof.
  intros H. destruct (playState x) as [p|] eqn:E; [|done].
  apply playState_Some in E as [-> [-> | ->]]; exfalso; apply H; auto.
Qed.

(** X19.  [reboot] validates the session id, [lastKnownTime],
    [lastKnownTimeUpdatedAt], the state and the video id in this order and
    answers with the error of the first field that is invalid, and with
    nothing else; the stores are left as they were, whether the log line
    of the rejection then throws or not. *)
Theorem reboot_names_first_invalid_field u data d now st :
  Js.fields data = Some d →
  let validId :=
    ∃ sid, Js.assoc "sessionId" d = Js.Str sid ∧ String.length sid = 16%nat in
  let validTime := nonNegInt (Js.assoc "lastKnownTime" d) in
  let validEpoch := nonNegInt (Js.assoc "lastKnownTimeUpdatedAt" d) in
  let validState :=
    Js.assoc "state" d = Js.Str "playing" ∨
    Js.assoc "state" d = Js.Str "paused" in
  let validVideo := nonNegInt (Js.assoc "videoId" d) in
  let answers msg :=
    effects (reboot u data now st) = [Ack (MError msg)] ∧
    finalStore (reboot u data now st) = st in
  (¬ validId → answers "Invalid session ID.") ∧
  (validId → ¬ validTime → answers "Invalid lastKnownTime.") ∧
  (validId → validTime → ¬ validEpoch →
   answers "Invalid lastKnownTimeUpdatedAt.") ∧
  (validId → validTime → validEpoch → ¬ validState →
   answers "Invalid state.") ∧
  (validId → validTime → validEpoch → validState → ¬ validVideo →
   answers "Invalid video ID.").
Proof.
  intros Hd validId validTime validEpoch validState validVideo answers.
  unfold answers, reboot. rewrite Hd.
  split; [|split; [|split; [|split]]].
  - intros Hid.
    destruct (Js.assoc "sessionId" d) as [| | | | sid | |];
      try (by rewrite effects_logged, finalStore_logged).
    destruct (String.length sid =? 16)%nat eqn:E; [|done].
    exfalso. apply Hid. exists sid. split; [done|]. by apply Nat.eqb_eq.
  - intros (sid & -> & ->) Ht. simpl.
    by rewrite (notNonNegInt_true _ Ht), effects_logged, finalStore_logged.
  - intros (sid & -> & ->) Ht He. simpl.
    apply notNonNegInt_false in Ht.
    by rewrite Ht, (notNonNegInt_true _ He), effects_logged, finalStore_logged.
  - intros (sid & -> & ->) Ht He Hp. simpl.
    apply notNonNegInt_false in Ht, He.
    by rewrite Ht, He, (playState_None _ Hp), effects_logged,
      finalStore_logged.
  - intros (sid & -> & ->) Ht He Hp Hv. simpl.
    apply notNonNegInt_false in Ht, He. rewrite Ht, He.
    assert (Hps : ∃ p, playState (Js.assoc "state" d) = Some p).
    { destruct Hp as [-> | ->]; by eexists. }
    destruct Hps as [p ->].
    by rewrite (notNonNegInt_true _ Hv), effects_logged, finalStore_logged.
Qed.

Lemma reboot_names_first_invalid_field_witness :
  Js.fields (rebootData "84dba68d" 7 9 "playing" 42) =
    Some [("sessionId", Js.Str "84dba68d"); ("lastKnownTime", int 7);
          ("lastKnownTimeUpdatedAt", int 9); ("state", Js.Str "playing");
          ("videoId", int 42)] ∧
  effects (reboot alice (rebootData "84dba68d" 7 9 "playing" 42) 2000
             lobbyStore) = [Ack (MError "Invalid session ID.")] ∧
  finalStore (reboot alice (rebootData "84dba68d" 7 9 "playing" 42) 2000
                lobbyStore) = lobbyStore.
Proof.
  split; [reflexivity|].
  refine (proj1 (reboot_names_first_invalid_field alice
                   (rebootData "84dba68d" 7 9 "playing" 42) _ 2000 lobbyStore
                   eq_refl) _).
  intros (sid & Hsid & Hlen). injection Hsid as <-. discriminate Hlen.
Defined.
